(** * EdgeDetectr: the hand-written Sobel pipelines

    A shallow embedding of the two hand-written edge detectors of
    [backend/operators]: the sequential [AltSobel] and the OpenMP
    [OmpSobel], with the kernel tables of [KernelUtil], the image
    loading and saving of [ImageUtils], and the [main] that dispatches
    on the operator's name.

    - C++ [int] is a [Z] with its 32-bit wrap-around written out
      ([wrap32]); [uint8_t] is a [Z] reduced modulo 256 by every cast
      to it.
    - C++ [double] is Rocq's primitive binary64 [float]; the literals
      0.299, 0.587 and 0.114 denote the same nearest doubles as in C++,
      and every product and sum is rounded on its own (no fused
      multiply-add).
    - [vector<vector<T>>] and a dense [cv::Mat] are lists of rows; a
      [Vec3b] and a [vector<uint8_t>(3)] are lists of three samples.
      Indexing outside an array is undefined in C++; here such a read
      yields a default value and such a write is dropped.  The pipelines
      never index outside their arrays.
    - A loop [for (int i = lo; i < hi; ++i)] is a left fold over
      [seqZ lo (hi - lo)]; an OpenMP [parallel for schedule(dynamic)]
      is the same fold over the order in which the runtime hands out
      the iterations, any permutation of that range.
    - [clock] and [printf] in [getEdges] only report the elapsed time and
      are left out of [getEdges]; [Main.main] records the printed line,
      the elapsed time being a parameter. *)

From Stdlib Require Import ZArith Floats Lia Uint63 String.
From stdpp Require Import base list.

Set Warnings "-inexact-float".
Local Open Scope Z_scope.

(** ** C++ scalar types *)

Module CInt.

(** Two's complement reduction of an [int] result. *)
Definition wrap32 (z : Z) : Z := (z + 2 ^ 31) mod 2 ^ 32 - 2 ^ 31.

Definition int_range (z : Z) : Prop := - 2 ^ 31 <= z < 2 ^ 31.

(** [static_cast<uint8_t>] of an [int]. *)
Definition to_u8 (z : Z) : Z := z mod 256.

End CInt.

Module Double.

(** [int] to [double]: exact, every [int] is a binary64 number. *)
Definition of_int (z : Z) : float :=
  if z <? 0 then PrimFloat.opp (PrimFloat.of_uint63 (Uint63.of_Z (- z)))
  else PrimFloat.of_uint63 (Uint63.of_Z z).

(** The integer part of a finite double, rounding toward zero. *)
Definition trunc_to_Z (x : float) : option Z :=
  match Prim2SF x with
  | S754_zero _ => Some 0
  | S754_finite s m e =>
      let a := if 0 <=? e then Z.pos m * 2 ^ e else Z.pos m / 2 ^ (- e) in
      Some (if s then - a else a)
  | S754_infinity _ | S754_nan => None
  end.

(** [static_cast<int>] of a [double]: truncation toward zero.  Out of
    range (and for NaN) the conversion is undefined in C++; x86-64's
    [cvttsd2si] yields INT_MIN there, which is what is modelled. *)
Definition cast_int (x : float) : Z :=
  match trunc_to_Z x with
  | Some z => if (- 2 ^ 31 <=? z) && (z <? 2 ^ 31) then z else - 2 ^ 31
  | None => - 2 ^ 31
  end.

(** [static_cast<uint8_t>] of a [double]. *)
Definition cast_u8 (x : float) : Z := CInt.to_u8 (cast_int x).

End Double.

(** ** Arrays and loops *)

Section Vectors.
Context {A : Type}.

(** [v[i]] for an [int] index; a read outside the vector (undefined in
    C++) yields the default sample. *)
Definition zlookup `{!Inhabited A} (l : list A) (i : Z) : A :=
  if decide (0 <= i) then l !!! Z.to_nat i else inhabitant.

(** [v[i] = f(v[i])]; a write outside the vector is dropped. *)
Definition zalter (f : A -> A) (i : Z) (l : list A) : list A :=
  if decide (0 <= i) then alter f (Z.to_nat i) l else l.

End Vectors.

Section Matrices.
Context {A : Type}.

(** [m[i][j]] and [m[i][j] = v]. *)
Definition mat_at `{!Inhabited A} (m : list (list A)) (i j : Z) : A :=
  zlookup (zlookup m i) j.

Definition mat_set (m : list (list A)) (i j : Z) (v : A) : list (list A) :=
  zalter (zalter (fun _ => v) j) i m.

(** A [rows] x [cols] array with every cell equal to [a]. *)
Definition mat_fill (rows cols : Z) (a : A) : list (list A) :=
  replicate (Z.to_nat rows) (replicate (Z.to_nat cols) a).

(** [cv::Mat::rows], [cv::Mat::cols] and [cv::Mat::empty]. *)
Definition mat_rows (m : list (list A)) : Z := Z.of_nat (length m).

Definition mat_cols (m : list (list A)) : Z :=
  match m with
  | [] => 0
  | row :: _ => Z.of_nat (length row)
  end.

Definition mat_empty (m : list (list A)) : bool :=
  (mat_rows m =? 0) || (mat_cols m =? 0).

End Matrices.

(** [m[i][j][c] = v] on an array of three-sample pixels. *)
Definition mat_set3 (m : list (list (list Z))) (i j c : Z) (v : Z) : list (list (list Z)) :=
  zalter (zalter (zalter (fun _ => v) c) j) i m.

Section Loops.
Context {State : Type}.

(** The loop body run once for every index of [idx], in that order. *)
Definition for_each (idx : list Z) (body : Z -> State -> State) (s : State) : State :=
  foldl (fun s i => body i s) s idx.

(** [for (int i = lo; i < hi; ++i) body]. *)
Definition for_range (lo hi : Z) (body : Z -> State -> State) (s : State) : State :=
  for_each (seqZ lo (hi - lo)) body s.

End Loops.

(** ** KernelUtil *)

Module KernelUtil.

Definition sobelX : list (list Z) :=
  [ [-1; 0; 1];
    [-2; 0; 2];
    [-1; 0; 1] ].

Definition sobelY : list (list Z) :=
  [ [-1; -2; -1];
    [ 0;  0;  0];
    [ 1;  2;  1] ].

End KernelUtil.

(** ** ImageUtils *)

Inductive exception : Type :=
  | runtime_error (what : string).

Module ImageUtils.

(** The file system as the pipelines see it: what [cv::imread] decodes
    from a path (an empty [Mat] when the path holds no decodable image;
    with [IMREAD_COLOR] the pixels are BGR triples) and the images handed
    to [cv::imwrite], oldest first. *)
Record World : Type := mkWorld {
  decode : string -> list (list (list Z));
  written : list (string * list (list Z))
}.

Definition getImage (inputPath : string) (w : World)
  : exception + list (list (list Z)) :=
  let image := decode w inputPath in
  if mat_empty image
  then inl (runtime_error (String.append "Could not read the image: " inputPath))
  else inr image.

Definition writeImage (image : list (list Z)) (outputName : string) (w : World) : World :=
  mkWorld (decode w) (written w ++ [(outputName, image)]).

End ImageUtils.

(** ** The per-pixel arithmetic shared by both classes *)

(** [static_cast<int>(scale * gradient + delta)]. *)
Definition affine (scale delta : float) (gradient : Z) : Z :=
  Double.cast_int (scale * Double.of_int gradient + delta)%float.

(** [static_cast<int>(sqrt(gx * gx + gy * gy))]: the squares and their
    sum are [int] operations, the square root is taken in [double]. *)
Definition magnitude (gx gy : Z) : Z :=
  Double.cast_int
    (PrimFloat.sqrt
       (Double.of_int (CInt.wrap32 (CInt.wrap32 (gx * gx) + CInt.wrap32 (gy * gy))))).

(** [static_cast<uint8_t>(min(255, magnitude))]. *)
Definition combine_pixel (gx gy : Z) : Z :=
  CInt.to_u8 (Z.min 255 (magnitude gx gy)).

(** [static_cast<int>(kernel.size())]. *)
Definition kernel_size (kernel : list (list Z)) : Z :=
  CInt.wrap32 (Z.of_nat (length kernel)).

(** The accumulation of [gradient] in the two innermost loops of
    [computeGradientX] and [computeGradientY]. *)
Definition accumulate (kernel grayImage : list (list Z)) (i j : Z) : Z :=
  let kernelSize := kernel_size kernel in
  let offset := kernelSize ÷ 2 in
  for_range 0 kernelSize (fun ki gradient =>
    for_range 0 kernelSize (fun kj gradient =>
      CInt.wrap32
        (gradient +
         CInt.wrap32 (mat_at kernel ki kj
                      * mat_at grayImage (i + ki - offset) (j + kj - offset))))
      gradient)
    0.

(** ** AltSobel: the sequential pipeline *)

Module AltSobel.

Record t : Type := mk {
  ksize : Z;
  scale : float;
  delta : float;
  height : Z;
  width : Z
}.

(** [AltSobel::AltSobel(int kernelSize)]. *)
Definition new (kernelSize : Z) : t :=
  mk kernelSize (Double.of_int 1) (Double.of_int 0) 0 0.

Definition convertToRGB (self : t) (input : list (list (list Z)))
  : list (list (list Z)) :=
  let rgbMatrix := mat_fill (height self) (width self) [0; 0; 0] in
  for_range 0 (height self) (fun i rgbMatrix =>
    for_range 0 (width self) (fun j rgbMatrix =>
      let pixel := mat_at input i j in
      let rgbMatrix := mat_set3 rgbMatrix i j 0 (zlookup pixel 2) in
      let rgbMatrix := mat_set3 rgbMatrix i j 1 (zlookup pixel 1) in
      mat_set3 rgbMatrix i j 2 (zlookup pixel 0))
      rgbMatrix)
    rgbMatrix.

Definition convertToGrayscale (self : t) (rgbMatrix : list (list (list Z)))
  : list (list Z) :=
  let grayMatrix := mat_fill (height self) (width self) 0 in
  for_range 0 (height self) (fun i grayMatrix =>
    for_range 0 (width self) (fun j grayMatrix =>
      let pixel := mat_at rgbMatrix i j in
      mat_set grayMatrix i j
        (Double.cast_u8
           (0.299 * Double.of_int (zlookup pixel 0) +
            0.587 * Double.of_int (zlookup pixel 1) +
            0.114 * Double.of_int (zlookup pixel 2))%float))
      grayMatrix)
    grayMatrix.

(** The body shared by [computeGradientX] and [computeGradientY], which
    differ only in the kernel table they read. *)
Definition computeGradient (kernel : list (list Z)) (self : t)
    (grayImage : list (list Z)) : list (list Z) :=
  let kernelSize := kernel_size kernel in
  let offset := kernelSize ÷ 2 in
  let grad := mat_fill (height self) (width self) 0 in
  for_range offset (height self - offset) (fun i grad =>
    for_range offset (width self - offset) (fun j grad =>
      let gradient := accumulate kernel grayImage i j in
      mat_set grad i j (affine (scale self) (delta self) gradient))
      grad)
    grad.

Definition computeGradientX : t -> list (list Z) -> list (list Z) :=
  computeGradient KernelUtil.sobelX.

Definition computeGradientY : t -> list (list Z) -> list (list Z) :=
  computeGradient KernelUtil.sobelY.

Definition combineGradients (self : t) (gradX gradY : list (list Z))
  : list (list Z) :=
  let combined := mat_fill (height self) (width self) 0 in
  for_range 0 (height self) (fun i combined =>
    for_range 0 (width self) (fun j combined =>
      mat_set combined i j (combine_pixel (mat_at gradX i j) (mat_at gradY i j)))
      combined)
    combined.

(** The four stages on a decoded image of the object's dimensions. *)
Definition stages (self : t) (image : list (list (list Z))) : list (list Z) :=
  let rgbImage := convertToRGB self image in
  let grayImage := convertToGrayscale self rgbImage in
  let gradX := computeGradientX self grayImage in
  let gradY := computeGradientY self grayImage in
  combineGradients self gradX gradY.

Definition getEdges (self : t) (inputPath outputName : string)
    (w : ImageUtils.World)
  : (exception + list (list Z)) * t * ImageUtils.World :=
  match ImageUtils.getImage inputPath w with
  | inl e => (inl e, self, w)
  | inr image =>
      let self := mk (ksize self) (scale self) (delta self)
                     (mat_rows image) (mat_cols image) in
      let edges := stages self image in
      let w := ImageUtils.writeImage edges outputName w in
      (inr edges, self, w)
  end.

End AltSobel.

(** ** OmpSobel: the OpenMP pipeline *)

(** The order in which the OpenMP runtime runs the iterations [lo .. hi-1]
    of each of the five parallel loops (numbered in program order).  Every
    iteration of these loops reads only the previous stage's array and
    writes only its own row, so an execution on any number of threads is
    equivalent to running the iterations one after another in some order. *)
Definition Schedule : Type := nat -> Z -> Z -> list Z.

Definition valid_schedule (sched : Schedule) : Prop :=
  forall region lo hi, sched region lo hi ≡ₚ seqZ lo (hi - lo).

Definition sequential : Schedule := fun _ lo hi => seqZ lo (hi - lo).

Definition backwards : Schedule := fun _ lo hi => reverse (seqZ lo (hi - lo)).

Module OmpSobel.

Record t : Type := mk {
  ksize : Z;
  scale : float;
  delta : float;
  height : Z;
  width : Z
}.

Definition new (kernelSize : Z) : t :=
  mk kernelSize (Double.of_int 1) (Double.of_int 0) 0 0.

Section Parallel.
Variable sched : Schedule.

(** [#pragma omp parallel for schedule(dynamic)] over [lo .. hi-1]. *)
Definition parallel_for {State : Type} (region : nat) (lo hi : Z)
    (body : Z -> State -> State) (s : State) : State :=
  for_each (sched region lo hi) body s.

Definition convertToRGB (self : t) (input : list (list (list Z)))
  : list (list (list Z)) :=
  let rgbImage := mat_fill (height self) (width self) [0; 0; 0] in
  parallel_for 0 0 (height self) (fun i rgbImage =>
    for_range 0 (width self) (fun j rgbImage =>
      let pixel := mat_at input i j in
      let rgbImage := mat_set3 rgbImage i j 0 (zlookup pixel 2) in
      let rgbImage := mat_set3 rgbImage i j 1 (zlookup pixel 1) in
      mat_set3 rgbImage i j 2 (zlookup pixel 0))
      rgbImage)
    rgbImage.

Definition convertToGrayscale (self : t) (rgbImage : list (list (list Z)))
  : list (list Z) :=
  let grayMatrix := mat_fill (height self) (width self) 0 in
  parallel_for 1 0 (height self) (fun i grayMatrix =>
    for_range 0 (width self) (fun j grayMatrix =>
      let pixel := mat_at rgbImage i j in
      mat_set grayMatrix i j
        (Double.cast_u8
           (0.299 * Double.of_int (zlookup pixel 2) +
            0.587 * Double.of_int (zlookup pixel 1) +
            0.114 * Double.of_int (zlookup pixel 0))%float))
      grayMatrix)
    grayMatrix.

Definition computeGradient (region : nat) (kernel : list (list Z)) (self : t)
    (grayImage : list (list Z)) : list (list Z) :=
  let kernelSize := kernel_size kernel in
  let offset := kernelSize ÷ 2 in
  let grad := mat_fill (height self) (width self) 0 in
  parallel_for region offset (height self - offset) (fun i grad =>
    for_range offset (width self - offset) (fun j grad =>
      let gradient := accumulate kernel grayImage i j in
      mat_set grad i j (affine (scale self) (delta self) gradient))
      grad)
    grad.

Definition computeGradientX : t -> list (list Z) -> list (list Z) :=
  computeGradient 2 KernelUtil.sobelX.

Definition computeGradientY : t -> list (list Z) -> list (list Z) :=
  computeGradient 3 KernelUtil.sobelY.

Definition combineGradients (self : t) (gradX gradY : list (list Z))
  : list (list Z) :=
  let combined := mat_fill (height self) (width self) 0 in
  parallel_for 4 0 (height self) (fun i combined =>
    for_range 0 (width self) (fun j combined =>
      mat_set combined i j (combine_pixel (mat_at gradX i j) (mat_at gradY i j)))
      combined)
    combined.

Definition stages (self : t) (image : list (list (list Z))) : list (list Z) :=
  let rgbImage := convertToRGB self image in
  let grayImage := convertToGrayscale self rgbImage in
  let gradX := computeGradientX self grayImage in
  let gradY := computeGradientY self grayImage in
  combineGradients self gradX gradY.

Definition getEdges (self : t) (inputPath outputName : string)
    (w : ImageUtils.World)
  : (exception + list (list Z)) * t * ImageUtils.World :=
  match ImageUtils.getImage inputPath w with
  | inl e => (inl e, self, w)
  | inr image =>
      let self := mk (ksize self) (scale self) (delta self)
                     (mat_rows image) (mat_cols image) in
      let edges := stages self image in
      let w := ImageUtils.writeImage edges outputName w in
      (inr edges, self, w)
  end.

End Parallel.

End OmpSobel.

(** ** Specification-level notions *)

(** The [rows] x [cols] array whose cell [(i, j)] is [f i j]. *)
Definition mat_tabulate {A : Type} (rows cols : Z) (f : Z -> Z -> A) : list (list A) :=
  (fun i => f i <$> seqZ 0 cols) <$> seqZ 0 rows.

(** A sum of integers. *)
Definition Zsum (l : list Z) : Z := foldr Z.add 0 l.

(** The integer dot product of a kernel with the neighbourhood of
    [(i, j)], the sample under kernel entry [(ki, kj)] being
    [(i + ki - offset, j + kj - offset)]. *)
Definition dot_product (kernel grayImage : list (list Z)) (i j : Z) : Z :=
  let k := kernel_size kernel in
  let offset := k ÷ 2 in
  Zsum ((fun ki =>
           Zsum ((fun kj =>
                    mat_at kernel ki kj
                    * mat_at grayImage (i + ki - offset) (j + kj - offset))
                   <$> seqZ 0 k))
          <$> seqZ 0 k).

(** The luminance of the header comments, 0.299 Red + 0.587 Green +
    0.114 Blue, truncated to 8 bits. *)
Definition luminance (red green blue : Z) : Z :=
  Double.cast_u8
    (0.299 * Double.of_int red + 0.587 * Double.of_int green
     + 0.114 * Double.of_int blue)%float.

(** A quarter turn of a matrix, clockwise: row [i] of the result is
    column [i] of the argument read bottom-up. *)
Fixpoint columns (width : nat) (m : list (list Z)) : list (list Z) :=
  match width with
  | O => []
  | S w => columns w m ++ [(fun row => row !!! w) <$> m]
  end.

Definition rotate90 (m : list (list Z)) : list (list Z) :=
  reverse <$> columns (Z.to_nat (mat_cols m)) m.

(** Every sample of an 8-bit image. *)
Definition is_u8_image (m : list (list Z)) : Prop :=
  Forall (Forall (fun v => 0 <= v < 256)) m.

(** The least exponent of a binary64 number. *)
Definition emin64 : Z := -1074.

(** What [convertToRGB] stores for a BGR pixel. *)
Definition rgb_of_bgr (pixel : list Z) : list Z :=
  [zlookup pixel 2; zlookup pixel 1; zlookup pixel 0].

(** The exact value of a finite binary64 number, as a fraction
    [(numerator, denominator)] whose denominator is a positive power of
    two; infinities and NaN have none. *)
Definition fraction_of (x : float) : option (Z * Z) :=
  match Prim2SF x with
  | S754_zero _ => Some (0, 1)
  | S754_finite s m e =>
      let mantissa := if s then Z.neg m else Z.pos m in
      Some (if 0 <=? e then (mantissa * 2 ^ e, 1) else (mantissa, 2 ^ (- e)))
  | S754_infinity _ | S754_nan => None
  end.

(** A fraction rounded toward zero: [Z.quot] drops the fractional part,
    so 3/2 gives 1 and -3/2 gives -1. *)
Definition round_toward_zero (q : Z * Z) : Z := fst q ÷ snd q.

(** What the gradient stage stores at [(i, j)]. *)
Definition gradient_cell (kernel : list (list Z)) (scale delta : float)
    (rows cols : Z) (grayImage : list (list Z)) (i j : Z) : Z :=
  let offset := kernel_size kernel ÷ 2 in
  if decide (offset <= i < rows - offset /\ offset <= j < cols - offset)
  then affine scale delta (accumulate kernel grayImage i j)
  else 0.

(** A file system with one image. *)
Definition one_file (path : string) (image : list (list (list Z))) : ImageUtils.World :=
  ImageUtils.mkWorld (fun p => if String.eqb p path then image else []) [].

(** A 3 x 3 BGR image: a pure red left column on black. *)
Definition red_column : list (list (list Z)) :=
  [ [[0; 0; 255]; [0; 0; 0]; [0; 0; 0]];
    [[0; 0; 255]; [0; 0; 0]; [0; 0; 0]];
    [[0; 0; 255]; [0; 0; 0]; [0; 0; 0]] ].

(** The sum of a kernel's coefficients, and of their absolute values. *)
Definition kernel_total (kernel : list (list Z)) : Z :=
  let k := kernel_size kernel in
  Zsum ((fun ki => Zsum (mat_at kernel ki <$> seqZ 0 k)) <$> seqZ 0 k).

Definition kernel_weight (kernel : list (list Z)) : Z :=
  let k := kernel_size kernel in
  Zsum ((fun ki => Zsum ((fun kj => Z.abs (mat_at kernel ki kj)) <$> seqZ 0 k))
          <$> seqZ 0 k).

(** The sequential object with the fields of an OpenMP object. *)
Definition as_sequential (p : OmpSobel.t) : AltSobel.t :=
  AltSobel.mk (OmpSobel.ksize p) (OmpSobel.scale p) (OmpSobel.delta p)
    (OmpSobel.height p) (OmpSobel.width p).

(** ** Shapes and transformed images *)

(** A [rows] x [cols] array: [rows] rows of [cols] cells each. *)
Definition has_dims {A : Type} (rows cols : Z) (m : list (list A)) : Prop :=
  length m = Z.to_nat rows /\ Forall (fun row => length row = Z.to_nat cols) m.

(** A well-formed edge map of the size of [image]: not empty, as many
    rows and columns as [image], every row of full length, every sample
    an 8-bit value. *)
Definition edge_map_of {A : Type} (image : list (list A)) (edges : list (list Z)) : Prop :=
  mat_empty edges = false
  /\ mat_rows edges = mat_rows image /\ mat_cols edges = mat_cols image
  /\ has_dims (mat_rows image) (mat_cols image) edges
  /\ is_u8_image edges.

(** A pixel of exactly three samples. *)
Definition is_pixel (px : list Z) : Prop := length px = 3%nat.

(** The image with the first and third sample of every pixel exchanged. *)
Definition swap_red_blue (rows cols : Z) (image : list (list (list Z)))
  : list (list (list Z)) :=
  mat_tabulate rows cols (fun i j => rgb_of_bgr (mat_at image i j)).

(** Every gray level of a [rows] x [cols] image raised by [c]. *)
Definition brighter (rows cols c : Z) (m : list (list Z)) : list (list Z) :=
  mat_tabulate rows cols (fun i j => mat_at m i j + c).

(** The photographic negative of an 8-bit gray image. *)
Definition negative (rows cols : Z) (m : list (list Z)) : list (list Z) :=
  mat_tabulate rows cols (fun i j => 255 - mat_at m i j).

(** The image read right to left. *)
Definition mirror (rows cols : Z) (m : list (list Z)) : list (list Z) :=
  mat_tabulate rows cols (fun i j => mat_at m i (cols - 1 - j)).

(** Rows and columns of a [rows] x [cols] image exchanged. *)
Definition transpose (rows cols : Z) (m : list (list Z)) : list (list Z) :=
  mat_tabulate cols rows (fun i j => mat_at m j i).

(** The gradient cell of a 3 x 3 kernel under the constructor's scale and
    delta: the integer sum inside the image, 0 on its border. *)
Definition sobel_cell (kernel : list (list Z)) (rows cols : Z)
    (grayImage : list (list Z)) (i j : Z) : Z :=
  if decide (1 <= i < rows - 1 /\ 1 <= j < cols - 1)
  then dot_product kernel grayImage i j
  else 0.

(** The edge map of an 8-bit gray image under the constructor's scale
    and delta, cell by cell. *)
Definition edge_cell (rows cols : Z) (grayImage : list (list Z)) (i j : Z) : Z :=
  let gx := sobel_cell KernelUtil.sobelX rows cols grayImage i j in
  let gy := sobel_cell KernelUtil.sobelY rows cols grayImage i j in
  Z.min 255 (Z.sqrt (gx * gx + gy * gy)).

(** Whether the gray pixel [(v, v, v)] gets gray level [v] or [v - 1]. *)
Definition gray_level_kept_or_darkened (v : Z) : bool :=
  (luminance v v v =? v) || (luminance v v v =? v - 1).

(** ** main *)

(** [e.what()]. *)
Definition what (e : exception) : string :=
  match e with runtime_error message => message end.

Module Main.

(** The lines the process has sent to standard output and to standard
    error, oldest first. *)
Record Console : Type := mkConsole {
  out : list string;
  err : list string
}.

Definition cout (line : string) (c : Console) : Console :=
  mkConsole (out c ++ [line]) (err c).

Definition cerr (line : string) (c : Console) : Console :=
  mkConsole (out c) (err c ++ [line]).

Definition usage : string := "Usage: operators <operator> <input_path> <output_path>".

Definition completed : string := "Processing completed successfully!".

Section Program.

(** [getEdges] of [OcvSobel], [OcvPrewitt] and [OcvRobertsCross] run
    OpenCV's own filters: each is taken as it comes, with the image it
    returns or the exception it throws, and the file system it leaves. *)
Variables ocvSobel ocvPrewitt ocvRobertsCross :
  string -> string -> ImageUtils.World
  -> (exception + list (list Z)) * ImageUtils.World.

(** The schedule of the OpenMP runtime. *)
Variable sched : Schedule.

(** The seconds that [printf] formats with [%.4f] at the end of a
    [getEdges]. *)
Variable elapsed : string.

(** The line a [getEdges] prints before it returns. *)
Definition time_taken : string :=
  String.append "Time taken: " (String.append elapsed "s").

(** The [if]/[else if] chain on [operatorType]: the [getEdges] that runs,
    if any, on an object built with the default kernel size. *)
Definition dispatch (operatorType inputPath outputPath : string) (w : ImageUtils.World)
  : option ((exception + list (list Z)) * ImageUtils.World) :=
  if String.eqb operatorType "opencv%20sobel" then
    Some (ocvSobel inputPath outputPath w)
  else if String.eqb operatorType "alternative%20sobel" then
    let '(r, _, w) := AltSobel.getEdges (AltSobel.new 3) inputPath outputPath w in
    Some (r, w)
  else if String.eqb operatorType "openmp%20sobel" then
    let '(r, _, w) := OmpSobel.getEdges sched (OmpSobel.new 3) inputPath outputPath w in
    Some (r, w)
  else if String.eqb operatorType "prewitt" then
    Some (ocvPrewitt inputPath outputPath w)
  else if String.eqb operatorType "roberts%20cross" then
    Some (ocvRobertsCross inputPath outputPath w)
  else None.

(** [main]: [argv] holds the program name and the arguments, [argc] is
    its length; the result is the exit status, what was printed, and the
    file system. *)
Definition main (argv : list string) (w : ImageUtils.World)
  : Z * Console * ImageUtils.World :=
  let console := mkConsole [] [] in
  if decide (Z.of_nat (length argv) < 4) then
    (1, cerr usage console, w)
  else
    let operatorType := nth 1 argv EmptyString in
    let inputPath := nth 2 argv EmptyString in
    let outputPath := nth 3 argv EmptyString in
    match dispatch operatorType inputPath outputPath w with
    | None =>
        (1, cerr (String.append "Unknown operator: " operatorType) console, w)
    | Some (inl e, w) =>
        (1, cerr (String.append "Error: " (what e)) console, w)
    | Some (inr _, w) =>
        (0, cout completed (cout time_taken console), w)
    end.

End Program.

End Main.

(** The operator names that [main] knows. *)
Definition known_operators : list string :=
  [ "opencv%20sobel"; "alternative%20sobel"; "openmp%20sobel"; "prewitt";
    "roberts%20cross" ]%string.

(** An OpenCV-backed operator that throws on every input. *)
Definition no_opencv (inputPath outputPath : string) (w : ImageUtils.World)
  : (exception + list (list Z)) * ImageUtils.World :=
  (inl (runtime_error "OpenCV is not modelled"), w).

(** * Properties *)

(** ** 32-bit wrap-around *)

Section WrapFacts.
Import CInt.

Lemma wrap32_small (z : Z) : int_range z -> wrap32 z = z.
Proof.
  unfold int_range, wrap32. intros Hz.
  rewrite Z.mod_small; lia.
Qed.

Lemma wrap32_range (z : Z) : int_range (wrap32 z).
Proof.
  unfold int_range, wrap32.
  pose proof (Z.mod_pos_bound (z + 2 ^ 31) (2 ^ 32) ltac:(lia)). lia.
Qed.

Lemma wrap32_add_l (a b : Z) : wrap32 (wrap32 a + b) = wrap32 (a + b).
Proof.
  unfold wrap32. f_equal.
  replace ((a + 2 ^ 31) mod 2 ^ 32 - 2 ^ 31 + b + 2 ^ 31)
    with ((a + 2 ^ 31) mod 2 ^ 32 + b) by lia.
  rewrite Zplus_mod_idemp_l. f_equal. lia.
Qed.

Lemma wrap32_add_r (a b : Z) : wrap32 (a + wrap32 b) = wrap32 (a + b).
Proof. rewrite (Z.add_comm a), wrap32_add_l. f_equal. lia. Qed.

Lemma wrap32_idemp (z : Z) : wrap32 (wrap32 z) = wrap32 z.
Proof. apply wrap32_small, wrap32_range. Qed.

Lemma to_u8_range (z : Z) : 0 <= to_u8 z < 256.
Proof. unfold to_u8. apply Z.mod_pos_bound. lia. Qed.

End WrapFacts.

(** ** Binary64 arithmetic on integers

    The primitive operations are specified by [Prim2SF] and the [SF]
    functions of [SpecFloat]; the lemmas below evaluate those functions
    on the doubles that hold an [int]. *)

Section DoubleFacts.
Import Double.

Lemma digits2_pos_bounds (p : positive) :
  2 ^ (Z.pos (digits2_pos p) - 1) <= Z.pos p < 2 ^ Z.pos (digits2_pos p).
Proof.
  induction p as [p IH | p IH |]; cbn [digits2_pos].
  - rewrite Pos2Z.inj_succ.
    replace (Z.succ (Z.pos (digits2_pos p)) - 1)
      with (Z.succ (Z.pos (digits2_pos p) - 1)) by lia.
    rewrite !Z.pow_succ_r by lia. lia.
  - rewrite Pos2Z.inj_succ.
    replace (Z.succ (Z.pos (digits2_pos p)) - 1)
      with (Z.succ (Z.pos (digits2_pos p) - 1)) by lia.
    rewrite !Z.pow_succ_r by lia. lia.
  - cbn. lia.
Qed.

Lemma digits2_pos_unique (p : positive) (d : Z) :
  2 ^ (d - 1) <= Z.pos p < 2 ^ d -> Z.pos (digits2_pos p) = d.
Proof.
  intros [Hlo Hhi]. pose proof (digits2_pos_bounds p) as [Blo Bhi].
  assert (0 < d) as Hd.
  { destruct (Z_lt_le_dec 0 d) as [|Hn]; [assumption|].
    destruct (Z.eq_dec d 0) as [->|]; [cbn in Hhi; lia|].
    rewrite (Z.pow_neg_r 2 d) in Hhi by lia. lia. }
  destruct (Z.lt_trichotomy (Z.pos (digits2_pos p)) d) as [Hlt | [Heq | Hgt]];
    [|assumption|].
  - assert (2 ^ Z.pos (digits2_pos p) <= 2 ^ (d - 1))
      by (apply Z.pow_le_mono_r; lia).
    lia.
  - assert (2 ^ d <= 2 ^ (Z.pos (digits2_pos p) - 1))
      by (apply Z.pow_le_mono_r; lia).
    lia.
Qed.

Lemma iter_xO_pow (p k : positive) :
  Z.pos (Pos.iter xO p k) = Z.pos p * 2 ^ Z.pos k.
Proof.
  induction k as [|k IH] using Pos.peano_ind.
  - cbn. lia.
  - rewrite Pos.iter_succ, Pos2Z.inj_succ, Z.pow_succ_r by lia.
    rewrite Pos2Z.inj_xO, IH. lia.
Qed.

Lemma fexp_canonical (e : Z) : emin64 <= e -> fexp prec emax (53 + e) = e.
Proof. unfold fexp, SpecFloat.emin, prec, emax, emin64. lia. Qed.

Lemma loc_shr_record_of_loc (m : Z) (l : location) :
  loc_of_shr_record (shr_record_of_loc m l) = l.
Proof. destruct l as [|[]]; reflexivity. Qed.

Lemma shr_m_record_of_loc (m : Z) (l : location) :
  shr_m (shr_record_of_loc m l) = m.
Proof. destruct l as [|[]]; reflexivity. Qed.

(** A 53-bit mantissa needs no shift. *)
Lemma shr_fexp_canonical (m : positive) (e : Z) (l : location) :
  2 ^ 52 <= Z.pos m < 2 ^ 53 -> emin64 <= e ->
  shr_fexp prec emax (Z.pos m) e l = (shr_record_of_loc (Z.pos m) l, e).
Proof.
  intros Hm He. unfold shr_fexp. cbn [Zdigits2].
  rewrite (digits2_pos_unique m 53) by (cbn; lia).
  rewrite fexp_canonical by assumption.
  rewrite Z.sub_diag. reflexivity.
Qed.

Lemma binary_round_aux_canonical
    (s : bool) (m : positive) (e : Z) (l : location) (m' : positive) :
  2 ^ 52 <= Z.pos m < 2 ^ 53 -> emin64 <= e <= 971 ->
  round_nearest_even (Z.pos m) l = Z.pos m' -> Z.pos m' < 2 ^ 53 ->
  binary_round_aux prec emax s (Z.pos m) e l = S754_finite s m' e.
Proof.
  intros Hm He Hr Hm'. unfold binary_round_aux.
  rewrite shr_fexp_canonical by lia.
  rewrite loc_shr_record_of_loc, shr_m_record_of_loc, Hr.
  assert (2 ^ 52 <= Z.pos m') as Hlo.
  { rewrite <- Hr. destruct l as [|[]]; cbn [round_nearest_even]; try lia.
    destruct (Z.even (Z.pos m)); lia. }
  rewrite shr_fexp_canonical by lia.
  cbn [shr_m shr_record_of_loc].
  replace (e <=? emax - prec) with true; [reflexivity|].
  symmetry. apply Z.leb_le. unfold emax, prec. lia.
Qed.

Lemma shr_exact (n m : positive) :
  SpecFloat.iter_pos shr_1 n
    {| shr_m := Z.pos (Pos.iter xO m n); shr_r := false; shr_s := false |}
  = {| shr_m := Z.pos m; shr_r := false; shr_s := false |}.
Proof.
  revert m. induction n as [n IH | n IH |]; intros m; cbn [SpecFloat.iter_pos Pos.iter].
  - cbn [shr_1 orb]. rewrite IH. apply IH.
  - rewrite IH. apply IH.
  - reflexivity.
Qed.

(** A mantissa with [n] trailing zeros above a 53-bit number rounds to
    that number, exactly. *)
Lemma binary_round_aux_exact (s : bool) (P M : positive) (n : positive) (e : Z) :
  Z.pos P = Z.pos M * 2 ^ Z.pos n ->
  2 ^ 52 <= Z.pos M < 2 ^ 53 -> emin64 <= e + Z.pos n <= 971 ->
  binary_round_aux prec emax s (Z.pos P) e loc_Exact = S754_finite s M (e + Z.pos n).
Proof.
  intros HP HM He.
  assert (P = Pos.iter xO M n) as ->.
  { apply Pos2Z.inj. rewrite iter_xO_pow. exact HP. }
  assert (0 < 2 ^ Z.pos n) as Hpn by (apply Z.pow_pos_nonneg; lia).
  unfold binary_round_aux, shr_fexp at 1. cbn [Zdigits2].
  rewrite (digits2_pos_unique (Pos.iter xO M n) (53 + Z.pos n)).
  2:{ rewrite iter_xO_pow.
      replace (53 + Z.pos n - 1) with (52 + Z.pos n) by lia.
      rewrite !Z.pow_add_r by lia. nia. }
  replace (fexp prec emax (53 + Z.pos n + e) - e) with (Z.pos n)
    by (unfold fexp, SpecFloat.emin, prec, emax, emin64 in *; lia).
  cbn [shr shr_record_of_loc]. rewrite shr_exact.
  cbn [shr_m loc_of_shr_record round_nearest_even].
  rewrite shr_fexp_canonical by lia.
  cbn [shr_m shr_record_of_loc].
  replace (e + Z.pos n <=? emax - prec) with true; [reflexivity|].
  symmetry. apply Z.leb_le. unfold emax, prec. lia.
Qed.

Lemma to_Z_of_Z_small (n : Z) : 0 <= n < 2 ^ 52 -> Uint63.to_Z (Uint63.of_Z n) = n.
Proof.
  intros Hn. rewrite Uint63.of_Z_spec. apply Z.mod_small.
  change wB with (2 ^ 63). lia.
Qed.

(** The double of a positive integer below 2^52: the integer shifted
    left until it has 53 bits. *)
Lemma binary_normalize_pos (p : positive) :
  Z.pos p < 2 ^ 52 ->
  let d := Z.pos (digits2_pos p) in
  exists M : positive,
    Z.pos M = Z.pos p * 2 ^ (53 - d) /\ 2 ^ 52 <= Z.pos M < 2 ^ 53 /\
    binary_normalize prec emax (Z.pos p) 0 false = S754_finite false M (d - 53).
Proof.
  intros Hp d. pose proof (digits2_pos_bounds p) as [Blo Bhi]. fold d in Blo, Bhi.
  assert (1 <= d <= 52) as Hd.
  { split; [subst d; lia|].
    destruct (Z_le_gt_dec d 52); [assumption|].
    assert (2 ^ 52 <= 2 ^ (d - 1)) by (apply Z.pow_le_mono_r; lia). lia. }
  cbn [binary_normalize]. unfold binary_round.
  assert (fexp prec emax (Z.pos (digits2_pos p) + 0) = d - 53) as ->.
  { unfold fexp, SpecFloat.emin, prec, emax. fold d. lia. }
  unfold shl_align.
  destruct (d - 53 - 0) as [|k|k] eqn:Ek; try lia.
  exists (Pos.iter xO p k).
  assert (Z.pos k = 53 - d) as Ek' by lia.
  assert (Z.pos (Pos.iter xO p k) = Z.pos p * 2 ^ (53 - d)) as EM
    by (rewrite iter_xO_pow, Ek'; reflexivity).
  assert (2 ^ 52 <= Z.pos (Pos.iter xO p k) < 2 ^ 53) as HM.
  { rewrite EM.
    assert (2 ^ 52 = 2 ^ (d - 1) * 2 ^ (53 - d)) as ->
      by (rewrite <- Z.pow_add_r by lia; f_equal; lia).
    assert (2 ^ 53 = 2 ^ d * 2 ^ (53 - d)) as ->
      by (rewrite <- Z.pow_add_r by lia; f_equal; lia).
    assert (0 < 2 ^ (53 - d)) by (apply Z.pow_pos_nonneg; lia).
    split; [apply Z.mul_le_mono_nonneg_r | apply Z.mul_lt_mono_pos_r]; lia. }
  split; [exact EM|]. split; [exact HM|].
  apply binary_round_aux_canonical; unfold emin64; try lia.
  reflexivity.
Qed.

Lemma digits_bound (p : positive) (n : Z) :
  0 <= n -> Z.pos p < 2 ^ n -> 1 <= Z.pos (digits2_pos p) <= n.
Proof.
  intros Hn Hp. pose proof (digits2_pos_bounds p) as [Blo Bhi].
  split; [lia|].
  destruct (Z_le_gt_dec (Z.pos (digits2_pos p)) n); [assumption|].
  assert (2 ^ n <= 2 ^ (Z.pos (digits2_pos p) - 1))
    by (apply Z.pow_le_mono_r; lia).
  lia.
Qed.

Lemma Prim2SF_of_int_zero : Prim2SF (of_int 0) = S754_zero false.
Proof. reflexivity. Qed.

(** [int] to [double] is exact. *)
Lemma Prim2SF_of_int (g : Z) :
  g <> 0 -> Z.abs g < 2 ^ 52 ->
  let d := Z.pos (digits2_pos (Z.to_pos (Z.abs g))) in
  exists M : positive,
    Z.pos M = Z.abs g * 2 ^ (53 - d) /\ 2 ^ 52 <= Z.pos M < 2 ^ 53 /\
    Prim2SF (of_int g) = S754_finite (g <? 0) M (d - 53).
Proof.
  intros Hg0 Hg d.
  assert (exists p, Z.abs g = Z.pos p) as [p Ep]
    by (exists (Z.to_pos (Z.abs g)); lia).
  subst d. rewrite Ep. cbn [Z.to_pos].
  destruct (binary_normalize_pos p ltac:(lia)) as (M & EM & HM & EN).
  exists M. split; [exact EM|]. split; [exact HM|].
  unfold of_int. destruct (g <? 0) eqn:Es.
  - apply Z.ltb_lt in Es.
    rewrite FloatAxioms.opp_spec, of_uint63_spec, to_Z_of_Z_small by lia.
    replace (- g) with (Z.pos p) by lia. rewrite EN. reflexivity.
  - apply Z.ltb_ge in Es.
    rewrite of_uint63_spec, to_Z_of_Z_small by lia.
    replace g with (Z.pos p) by lia. exact EN.
Qed.

Lemma abs_digits (z : Z) :
  z <> 0 ->
  let d := Z.pos (digits2_pos (Z.to_pos (Z.abs z))) in
  2 ^ (d - 1) <= Z.abs z < 2 ^ d /\ 1 <= d.
Proof.
  intros Hz d. pose proof (digits2_pos_bounds (Z.to_pos (Z.abs z))) as Hb.
  rewrite Z2Pos.id in Hb by lia. split; [exact Hb | subst d; lia].
Qed.

(** The product of two integers is exact in binary64 while it stays
    below 2^52. *)
Lemma of_int_mul (a b : Z) :
  a <> 0 -> b <> 0 ->
  Z.abs a < 2 ^ 32 -> Z.abs b < 2 ^ 32 -> Z.abs (a * b) < 2 ^ 52 ->
  (of_int a * of_int b)%float = of_int (a * b).
Proof.
  intros Ha0 Hb0 Ha Hb Hab. apply Prim2SF_inj. rewrite FloatAxioms.mul_spec.
  assert (a * b <> 0) as Hab0 by nia.
  destruct (Prim2SF_of_int a Ha0 ltac:(lia)) as (Ma & EMa & HMa & ->).
  destruct (Prim2SF_of_int b Hb0 ltac:(lia)) as (Mb & EMb & HMb & ->).
  destruct (Prim2SF_of_int (a * b) Hab0 Hab) as (Mab & EMab & HMab & ->).
  destruct (abs_digits a Ha0) as [[Alo Ahi] Ad].
  destruct (abs_digits b Hb0) as [[Blo Bhi] Bd].
  destruct (abs_digits (a * b) Hab0) as [[ABlo ABhi] ABd].
  set (da := Z.pos (digits2_pos (Z.to_pos (Z.abs a)))) in *.
  set (db := Z.pos (digits2_pos (Z.to_pos (Z.abs b)))) in *.
  set (dab := Z.pos (digits2_pos (Z.to_pos (Z.abs (a * b))))) in *.
  assert (da <= 32 /\ db <= 32 /\ dab <= 52) as (Hda & Hdb & Hdab).
  { repeat split.
    - destruct (Z_le_gt_dec da 32); [assumption|].
      assert (2 ^ 32 <= 2 ^ (da - 1)) by (apply Z.pow_le_mono_r; lia). lia.
    - destruct (Z_le_gt_dec db 32); [assumption|].
      assert (2 ^ 32 <= 2 ^ (db - 1)) by (apply Z.pow_le_mono_r; lia). lia.
    - destruct (Z_le_gt_dec dab 52); [assumption|].
      assert (2 ^ 52 <= 2 ^ (dab - 1)) by (apply Z.pow_le_mono_r; lia). lia. }
  assert (da + db - 1 <= dab <= da + db) as Hd.
  { rewrite Z.abs_mul in ABlo, ABhi.
    assert (2 ^ (da - 1) * 2 ^ (db - 1) <= Z.abs a * Z.abs b)
      by (apply Z.mul_le_mono_nonneg; lia).
    assert (Z.abs a * Z.abs b < 2 ^ da * 2 ^ db)
      by (apply Z.mul_lt_mono_nonneg; lia).
    rewrite <- Z.pow_add_r in * by lia.
    split.
    - destruct (Z_le_gt_dec (da + db - 1) dab); [assumption|].
      assert (2 ^ dab <= 2 ^ (da - 1 + (db - 1))) by (apply Z.pow_le_mono_r; lia). lia.
    - destruct (Z_le_gt_dec dab (da + db)); [assumption|].
      assert (2 ^ (da + db) <= 2 ^ (dab - 1)) by (apply Z.pow_le_mono_r; lia). lia. }
  unfold SF64mul. cbn [SFmul].
  assert (xorb (a <? 0) (b <? 0) = (a * b <? 0)) as ->.
  { destruct (a <? 0) eqn:Ea, (b <? 0) eqn:Eb, (a * b <? 0) eqn:Eab; try reflexivity;
      rewrite ?Z.ltb_lt, ?Z.ltb_ge in *; nia. }
  set (n := dab + 53 - da - db).
  replace (dab - 53) with (da - 53 + (db - 53) + Z.pos (Z.to_pos n))
    by (rewrite Z2Pos.id by lia; lia).
  apply binary_round_aux_exact.
  - rewrite Pos2Z.inj_mul, EMa, EMb, EMab, Z2Pos.id, Z.abs_mul by lia.
    replace (2 ^ (53 - da)) with (2 ^ (53 - dab) * 2 ^ (dab - da))
      by (rewrite <- Z.pow_add_r by lia; f_equal; lia).
    replace (2 ^ n) with (2 ^ (dab - da) * 2 ^ (53 - db))
      by (rewrite <- Z.pow_add_r by lia; f_equal; lia).
    ring.
  - exact HMab.
  - rewrite Z2Pos.id by lia. unfold emin64. lia.
Qed.

Lemma of_int_add_zero (z : Z) :
  Z.abs z < 2 ^ 52 -> (of_int z + of_int 0)%float = of_int z.
Proof.
  intros Hz. apply Prim2SF_inj. rewrite FloatAxioms.add_spec, Prim2SF_of_int_zero.
  destruct (Z.eq_dec z 0) as [-> | Hz0]; [reflexivity|].
  destruct (Prim2SF_of_int z Hz0 Hz) as (M & _ & _ & ->). reflexivity.
Qed.

(** An [int] survives the round trip through [double]. *)
Lemma cast_int_of_int (z : Z) : CInt.int_range z -> cast_int (of_int z) = z.
Proof.
  intros Hz. unfold CInt.int_range in Hz. unfold cast_int, trunc_to_Z.
  destruct (Z.eq_dec z 0) as [-> | Hz0]; [reflexivity|].
  destruct (Prim2SF_of_int z Hz0 ltac:(lia)) as (M & EM & HM & ->).
  destruct (abs_digits z Hz0) as [[Dlo Dhi] Dd].
  set (d := Z.pos (digits2_pos (Z.to_pos (Z.abs z)))) in *.
  assert (d <= 32).
  { destruct (Z_le_gt_dec d 32); [assumption|].
    assert (2 ^ 32 <= 2 ^ (d - 1)) by (apply Z.pow_le_mono_r; lia). lia. }
  replace (0 <=? d - 53) with false by (symmetry; apply Z.leb_gt; lia).
  cbv zeta. rewrite EM, Z.opp_sub_distr, Z.add_comm, Z.add_opp_r.
  rewrite Z.div_mul by (apply Z.pow_nonzero; lia).
  assert ((if z <? 0 then - Z.abs z else Z.abs z) = z) as ->
    by (destruct (z <? 0) eqn:Es; rewrite ?Z.ltb_lt, ?Z.ltb_ge in Es; lia).
  replace (- 2 ^ 31 <=? z) with true by (symmetry; apply Z.leb_le; lia).
  replace (z <? 2 ^ 31) with true by (symmetry; apply Z.ltb_lt; lia).
  reflexivity.
Qed.

(** With a whole-number scale and delta 0 the affine step is an exact
    integer product. *)
Lemma affine_whole_scale (s g : Z) :
  Z.abs s < 2 ^ 32 -> Z.abs g < 2 ^ 32 -> CInt.int_range (s * g) ->
  affine (of_int s) (of_int 0) g = s * g.
Proof.
  intros Hs Hg Hsg. unfold affine.
  assert (Z.abs (s * g) < 2 ^ 52) by (unfold CInt.int_range in Hsg; lia).
  destruct (Z.eq_dec s 0) as [-> | Hs0]; [|destruct (Z.eq_dec g 0) as [-> | Hg0]].
  - rewrite Z.mul_0_l. unfold cast_int, trunc_to_Z.
    rewrite FloatAxioms.add_spec, FloatAxioms.mul_spec, Prim2SF_of_int_zero.
    destruct (Z.eq_dec g 0) as [-> | Hg0]; [reflexivity|].
    destruct (Prim2SF_of_int g Hg0 ltac:(lia)) as (M & _ & _ & ->).
    destruct (g <? 0); reflexivity.
  - rewrite Z.mul_0_r. unfold cast_int, trunc_to_Z.
    rewrite FloatAxioms.add_spec, FloatAxioms.mul_spec, Prim2SF_of_int_zero.
    destruct (Prim2SF_of_int s Hs0 ltac:(lia)) as (M & _ & _ & ->).
    destruct (s <? 0); reflexivity.
  - rewrite of_int_mul, of_int_add_zero by assumption.
    apply cast_int_of_int. assumption.
Qed.

Lemma double_of_int_twice (s : Z) :
  Z.abs s < 2 ^ 32 -> (2 * of_int s)%float = of_int (2 * s).
Proof.
  intros Hs. destruct (Z.eq_dec s 0) as [-> | Hs0]; [reflexivity|].
  change 2%float with (of_int 2). apply of_int_mul; lia.
Qed.

(** The square root of a scaled integer, in integers. *)
Lemma sqrt_scaled (p C T : Z) :
  0 < p -> 0 < C <= 2 ^ 16 -> C * T = 2 ^ 53 -> C * C <= 4 * p -> p < C * C ->
  let k := Z.sqrt p in
  let q := Z.sqrt (p * (T * T)) in
  let r := p * (T * T) - q * q in
  let q' := if r <=? q then q else q + 1 in
  2 ^ 52 <= q /\ q' < 2 ^ 53 /\ q <= q' /\ q' / T = k.
Proof.
  intros Hp HC HCT Hlo Hhi k q r q'.
  assert (0 < T) as HT by nia.
  assert (2 ^ 37 <= T) as HTbig.
  { assert (2 ^ 53 = 2 ^ 16 * 2 ^ 37) as E by reflexivity. nia. }
  pose proof (Z.sqrt_spec p ltac:(lia)) as Hk. fold k in Hk. cbv zeta in Hk.
  assert (0 <= p * (T * T)) as Hm by nia.
  pose proof (Z.sqrt_spec _ Hm) as Hq. fold q in Hq. cbv zeta in Hq.
  pose proof (Z.sqrt_nonneg p) as Hk0. fold k in Hk0.
  pose proof (Z.sqrt_nonneg (p * (T * T))) as Hq0. fold q in Hq0.
  assert (k * T <= q) as Hq1.
  { destruct (Z_le_gt_dec (k * T) q); [assumption|].
    assert (Z.succ q <= k * T) by lia.
    assert (Z.succ q * Z.succ q <= (k * T) * (k * T))
      by (apply Z.mul_le_mono_nonneg; lia).
    nia. }
  assert (q < (k + 1) * T) as Hq2.
  { destruct (Z_lt_le_dec q ((k + 1) * T)); [assumption|].
    assert (((k + 1) * T) * ((k + 1) * T) <= q * q)
      by (apply Z.mul_le_mono_nonneg; nia).
    assert (p + 1 <= (k + 1) * (k + 1)) by lia.
    assert ((p + 1) * (T * T) <= ((k + 1) * (k + 1)) * (T * T))
      by (apply Z.mul_le_mono_nonneg_r; nia).
    nia. }
  assert (k < C) as HkC.
  { destruct (Z_lt_le_dec k C); [assumption|].
    assert (C * C <= k * k) by (apply Z.mul_le_mono_nonneg; lia). lia. }
  assert (C <= 2 * k + 1) as HkC2.
  { destruct (Z_le_gt_dec C (2 * k + 1)); [assumption|].
    assert (2 * (k + 1) <= C) by lia.
    assert ((2 * (k + 1)) * (2 * (k + 1)) <= C * C)
      by (apply Z.mul_le_mono_nonneg; lia).
    lia. }
  assert (q' < (k + 1) * T) as Hq3.
  { subst q'. destruct (r <=? q) eqn:Er; [assumption|].
    apply Z.leb_gt in Er.
    destruct (Z_lt_le_dec (q + 1) ((k + 1) * T)); [assumption|].
    assert (q + 1 = (k + 1) * T) as EA by lia.
    exfalso. subst r.
    assert (p + 1 <= (k + 1) * (k + 1)) by lia.
    assert ((p + 1) * (T * T) <= ((k + 1) * (k + 1)) * (T * T))
      by (apply Z.mul_le_mono_nonneg_r; nia).
    assert (((k + 1) * (k + 1)) * (T * T) = (q + 1) * (q + 1))
      by (rewrite EA; ring).
    assert (T * T < (k + 1) * T) by lia.
    assert (T < k + 1) by (apply (Z.mul_lt_mono_pos_r T); lia).
    assert (2 ^ 37 > 2 ^ 16) by reflexivity. lia. }
  assert (q <= q') as Hqq' by (subst q'; destruct (r <=? q); lia).
  split; [|split; [|split]]; [| |assumption|].
  - assert (2 ^ 52 * 2 <= 2 * (k * T) + T); [|nia].
    assert (2 ^ 53 = 2 ^ 52 * 2) as E by reflexivity. nia.
  - assert ((k + 1) * T <= C * T) by (apply Z.mul_le_mono_nonneg_r; lia). lia.
  - symmetry. apply (Z.div_unique_pos q' T k (q' - k * T)); lia.
Qed.

(** [SFsqrt] on the double of a positive [int]: a 53-bit mantissa whose
    integer part is the integer square root. *)
Lemma SFsqrt_of_pos (p : positive) :
  Z.pos p < 2 ^ 31 ->
  exists (q' : positive) (t : Z),
    0 < t /\ Z.pos q' / 2 ^ t = Z.sqrt (Z.pos p) /\
    SFsqrt prec emax (binary_normalize prec emax (Z.pos p) 0 false)
    = S754_finite false q' (- t).
Proof.
  intros Hp.
  destruct (binary_normalize_pos p ltac:(lia)) as (M & EM & HM & ->).
  pose proof (digits_bound p 31 ltac:(lia) Hp) as Hd.
  pose proof (digits2_pos_bounds p) as [Blo Bhi].
  set (d := Z.pos (digits2_pos p)) in *.
  set (c := (d + 1) / 2).
  assert (1 <= c <= 16 /\ 2 * c - 1 <= d <= 2 * c) as [Hc Hdc].
  { subst c. pose proof (Z.div_mod (d + 1) 2 ltac:(lia)).
    pose proof (Z.mod_pos_bound (d + 1) 2 ltac:(lia)). lia. }
  set (t := 53 - c).
  cbn [SFsqrt]. unfold SFsqrt_core_binary. cbn [Zdigits2].
  rewrite (digits2_pos_unique M 53) by (cbn; lia).
  assert (Z.min (fexp prec emax (Z.div2 (53 + (d - 53) + 1))) (Z.div2 (d - 53)) = - t)
    as ->.
  { rewrite !Z.div2_div. replace (53 + (d - 53) + 1) with (d + 1) by lia. fold c.
    unfold fexp, SpecFloat.emin, prec, emax.
    pose proof (Z.div_mod (d - 53) 2 ltac:(lia)).
    pose proof (Z.mod_pos_bound (d - 53) 2 ltac:(lia)). lia. }
  set (s := d - 53 - 2 * - t).
  assert (0 < s) as Hs by lia.
  assert (Z.pos M * 2 ^ s = Z.pos p * (2 ^ t * 2 ^ t)) as Em'.
  { rewrite EM, <- Z.mul_assoc, <- !Z.pow_add_r by lia. do 2 f_equal. lia. }
  assert (match s with
          | Z.pos _ => Z.shiftl (Z.pos M) s
          | 0 => Z.pos M
          | Z.neg _ => 0
          end = Z.pos p * (2 ^ t * 2 ^ t)) as ->.
  { destruct s eqn:Es; try lia. rewrite Z.shiftl_mul_pow2 by lia. exact Em'. }
  pose proof (Z.sqrtrem_spec (Z.pos p * (2 ^ t * 2 ^ t))) as Hsr.
  pose proof (Z.sqrtrem_sqrt (Z.pos p * (2 ^ t * 2 ^ t))) as Hsq.
  destruct (Z.sqrtrem (Z.pos p * (2 ^ t * 2 ^ t))) as [q r]. cbn [fst] in Hsq.
  assert (0 < 2 ^ t) as HT by (apply Z.pow_pos_nonneg; lia).
  specialize (Hsr ltac:(nia)). destruct Hsr as [Hsr Hr].
  assert (2 ^ c * 2 ^ t = 2 ^ 53) as HCT
    by (rewrite <- Z.pow_add_r by lia; f_equal; lia).
  assert (0 < 2 ^ c <= 2 ^ 16) as HC.
  { split; [apply Z.pow_pos_nonneg; lia | apply Z.pow_le_mono_r; lia]. }
  assert (2 ^ c * 2 ^ c <= 4 * Z.pos p) as Hlo.
  { rewrite <- Z.pow_add_r by lia.
    assert (2 ^ (c + c) <= 2 ^ (d + 1)) by (apply Z.pow_le_mono_r; lia).
    assert (2 ^ (d + 1) = 4 * 2 ^ (d - 1)) as E.
    { replace (d + 1) with (2 + (d - 1)) by lia.
      rewrite Z.pow_add_r by lia. reflexivity. }
    lia. }
  assert (Z.pos p < 2 ^ c * 2 ^ c) as Hhi.
  { rewrite <- Z.pow_add_r by lia.
    assert (2 ^ d <= 2 ^ (c + c)) by (apply Z.pow_le_mono_r; lia). lia. }
  pose proof (sqrt_scaled (Z.pos p) (2 ^ c) (2 ^ t) ltac:(lia) HC HCT Hlo Hhi)
    as Hmain.
  cbv zeta in Hmain. rewrite <- Hsq in Hmain.
  replace (Z.pos p * (2 ^ t * 2 ^ t) - q * q) with r in Hmain by lia.
  destruct Hmain as (Hq52 & Hq53 & Hqq' & Hdiv).
  destruct q as [|qp|qp]; try lia.
  set (q' := if r <=? Z.pos qp then Z.pos qp else Z.pos qp + 1) in *.
  exists (Z.to_pos q'), t.
  split; [lia|]. split; [rewrite Z2Pos.id by lia; exact Hdiv|].
  apply binary_round_aux_canonical; unfold emin64; try lia.
  rewrite Z2Pos.id by lia. subst q'.
  destruct (r =? 0) eqn:E0.
  - apply Z.eqb_eq in E0.
    replace (r <=? Z.pos qp) with true by (symmetry; apply Z.leb_le; lia).
    reflexivity.
  - destruct (r <=? Z.pos qp); reflexivity.
Qed.

(** [static_cast<int>(sqrt(n))] is the integer square root of a
    non-negative [int]. *)
Lemma cast_int_sqrt (n : Z) :
  0 <= n < 2 ^ 31 -> cast_int (PrimFloat.sqrt (of_int n)) = Z.sqrt n.
Proof.
  intros Hn. unfold cast_int, trunc_to_Z, of_int.
  replace (n <? 0) with false by (symmetry; apply Z.ltb_ge; lia).
  rewrite FloatAxioms.sqrt_spec, FloatAxioms.of_uint63_spec, to_Z_of_Z_small by lia.
  destruct n as [|p|p]; [reflexivity| |lia].
  destruct (SFsqrt_of_pos p ltac:(lia)) as (q' & t & Ht & Hdiv & E).
  unfold SF64sqrt. rewrite E.
  replace (0 <=? - t) with false by (symmetry; apply Z.leb_gt; lia).
  cbv zeta. rewrite Z.opp_involutive, Hdiv.
  pose proof (Z.sqrt_nonneg (Z.pos p)).
  assert (Z.sqrt (Z.pos p) < 2 ^ 31).
  { pose proof (Z.sqrt_le_lin (Z.pos p) ltac:(lia)). lia. }
  replace (- 2 ^ 31 <=? Z.sqrt (Z.pos p)) with true by (symmetry; apply Z.leb_le; lia).
  replace (Z.sqrt (Z.pos p) <? 2 ^ 31) with true by (symmetry; apply Z.ltb_lt; lia).
  reflexivity.
Qed.

End DoubleFacts.

(** ** Loops that fill an array *)

Section LoopFacts.
Context {A : Type}.

Lemma for_each_cons {State : Type} (i : Z) (idx : list Z) (body : Z -> State -> State) (s : State) :
  for_each (i :: idx) body s = for_each idx body (body i s).
Proof. reflexivity. Qed.

Lemma for_each_ext {State : Type} (idx : list Z) (body1 body2 : Z -> State -> State) (s : State) :
  (forall i s, body1 i s = body2 i s) ->
  for_each idx body1 s = for_each idx body2 s.
Proof.
  intros Hext. revert s.
  induction idx as [|i idx IH]; intros s; [reflexivity|].
  rewrite !for_each_cons, Hext. apply IH.
Qed.

Lemma zalter_zalter (f g : A -> A) (i : Z) (l : list A) :
  zalter f i (zalter g i l) = zalter (f ∘ g) i l.
Proof.
  unfold zalter. destruct (decide (0 <= i)); [|reflexivity].
  apply list_alter_alter_eq.
Qed.

Lemma zalter_ext (f g : A -> A) (i : Z) (l : list A) :
  (forall x, f x = g x) -> zalter f i l = zalter g i l.
Proof.
  intros Hext. unfold zalter. destruct (decide (0 <= i)); [|reflexivity].
  apply list_alter_ext; auto.
Qed.

Lemma zalter_id (i : Z) (l : list A) : zalter (fun x => x) i l = l.
Proof.
  unfold zalter. destruct (decide (0 <= i)); [|reflexivity].
  apply list_alter_id. reflexivity.
Qed.

(** A loop whose every iteration rewrites entry [i] rewrites entry [i]
    by the composed iterations. *)
Lemma for_each_zalter_same (F : Z -> A -> A) (idx : list Z) (i : Z) (l : list A) :
  for_each idx (fun j l => zalter (F j) i l) l
  = zalter (fun x => for_each idx F x) i l.
Proof.
  revert l. induction idx as [|j idx IH]; intros l.
  - cbn. symmetry. apply zalter_id.
  - rewrite for_each_cons, IH, zalter_zalter.
    apply zalter_ext. intros x. reflexivity.
Qed.

(** A loop whose iteration [i] rewrites entry [i]: each entry is
    rewritten by its own iteration and by no other. *)
Lemma for_each_zalter_miss (F : Z -> A -> A) (idx : list Z) (l : list A) (k : nat) :
  Z.of_nat k ∉ idx ->
  for_each idx (fun i l => zalter (F i) i l) l !! k = l !! k.
Proof.
  revert l. induction idx as [|i idx IH]; intros l Hni; [reflexivity|].
  apply not_elem_of_cons in Hni as [Hne Hni].
  rewrite for_each_cons, IH by assumption.
  unfold zalter. destruct (decide (0 <= i)); [|reflexivity].
  apply list_lookup_alter_ne. lia.
Qed.

Lemma for_each_zalter_hit (F : Z -> A -> A) (idx : list Z) (l : list A) (k : nat) :
  NoDup idx -> Z.of_nat k ∈ idx ->
  for_each idx (fun i l => zalter (F i) i l) l !! k = F (Z.of_nat k) <$> l !! k.
Proof.
  revert l. induction idx as [|i idx IH]; intros l Hnd Hin.
  - inversion Hin.
  - apply NoDup_cons in Hnd as [Hni Hnd]. rewrite for_each_cons.
    destruct (decide (i = Z.of_nat k)) as [-> | Hne].
    + rewrite for_each_zalter_miss by assumption. unfold zalter.
      destruct (decide (0 <= Z.of_nat k)); [|lia].
      rewrite Nat2Z.id. apply list_lookup_alter_eq.
    + apply elem_of_cons in Hin as [Heq | Hin]; [congruence|].
      rewrite IH by assumption. f_equal.
      unfold zalter. destruct (decide (0 <= i)); [|reflexivity].
      apply list_lookup_alter_ne. lia.
Qed.

Lemma for_each_zalter_length (F : Z -> A -> A) (idx : list Z) (l : list A) :
  length (for_each idx (fun i l => zalter (F i) i l) l) = length l.
Proof.
  revert l. induction idx as [|i idx IH]; intros l; [reflexivity|].
  rewrite for_each_cons, IH. unfold zalter.
  destruct (decide (0 <= i)); [apply length_alter | reflexivity].
Qed.

End LoopFacts.

Section TabulateFacts.
Context {A : Type}.

Lemma lookup_mat_tabulate (rows cols : Z) (f : Z -> Z -> A) (k : nat) :
  Z.of_nat k < rows ->
  mat_tabulate rows cols f !! k = Some (f (Z.of_nat k) <$> seqZ 0 cols).
Proof.
  intros Hk. unfold mat_tabulate.
  rewrite list_lookup_fmap, lookup_seqZ_lt by assumption. reflexivity.
Qed.

Lemma length_mat_tabulate (rows cols : Z) (f : Z -> Z -> A) :
  length (mat_tabulate rows cols f) = Z.to_nat rows.
Proof. unfold mat_tabulate. rewrite length_fmap. apply length_seqZ. Qed.

Lemma mat_at_tabulate `{!Inhabited A} (rows cols : Z) (f : Z -> Z -> A) (i j : Z) :
  0 <= i < rows -> 0 <= j < cols ->
  mat_at (mat_tabulate rows cols f) i j = f i j.
Proof.
  intros Hi Hj. unfold mat_at, zlookup.
  destruct (decide (0 <= i)); [|lia]. destruct (decide (0 <= j)); [|lia].
  rewrite (list_lookup_total_correct _ _ (f i <$> seqZ 0 cols)).
  - apply list_lookup_total_correct.
    rewrite list_lookup_fmap, lookup_seqZ_lt by lia.
    cbn. do 2 f_equal. lia.
  - rewrite lookup_mat_tabulate by lia. do 3 f_equal. lia.
Qed.

Lemma mat_tabulate_ext (rows cols : Z) (f g : Z -> Z -> A) :
  (forall i j, 0 <= i < rows -> 0 <= j < cols -> f i j = g i j) ->
  mat_tabulate rows cols f = mat_tabulate rows cols g.
Proof.
  intros Hext. unfold mat_tabulate.
  apply list_fmap_ext. intros k i Hi.
  apply lookup_seqZ in Hi as [-> Hk].
  apply list_fmap_ext. intros c j Hj.
  apply lookup_seqZ in Hj as [-> Hc].
  apply Hext; lia.
Qed.

Lemma mat_tabulate_const (rows cols : Z) (a : A) :
  mat_tabulate rows cols (fun _ _ => a) = mat_fill rows cols a.
Proof.
  assert (forall n, (fun _ : Z => a) <$> seqZ 0 n = replicate (Z.to_nat n) a) as Hrow.
  { intros n. apply list_eq. intros c.
    rewrite list_lookup_fmap.
    destruct (decide (Z.of_nat c < n)).
    - rewrite lookup_seqZ_lt, lookup_replicate_2 by lia. reflexivity.
    - rewrite lookup_seqZ_ge by lia. symmetry.
      apply lookup_replicate_None. lia. }
  unfold mat_tabulate, mat_fill. rewrite Hrow.
  apply list_eq. intros k. rewrite list_lookup_fmap.
  destruct (decide (Z.of_nat k < rows)).
  - rewrite lookup_seqZ_lt, lookup_replicate_2 by lia. reflexivity.
  - rewrite lookup_seqZ_ge by lia. symmetry.
    apply lookup_replicate_None. lia.
Qed.

(** The loop nest of every stage: rows [idxI] (in any order), columns
    [clo .. chi-1], each cell rewritten once. *)
Lemma fill_rect (a0 : A) (rows cols : Z) (idxI : list Z)
    (rlo rhi clo chi : Z) (G : Z -> Z -> A -> A) :
  idxI ≡ₚ seqZ rlo (rhi - rlo) ->
  for_each idxI (fun i m =>
    for_range clo chi (fun j m => zalter (zalter (G i j) j) i m) m)
    (mat_fill rows cols a0)
  = mat_tabulate rows cols (fun i j =>
      if decide (rlo <= i < rhi /\ clo <= j < chi) then G i j a0 else a0).
Proof.
  intros Hperm.
  assert (NoDup idxI) as Hnd by (rewrite Hperm; apply NoDup_seqZ).
  assert (forall i, i ∈ idxI <-> rlo <= i < rhi) as Hin.
  { intros i. rewrite Hperm, elem_of_seqZ. lia. }
  rewrite (for_each_ext _ _
             (fun i m => zalter
                (fun row => for_each (seqZ clo (chi - clo))
                              (fun j row => zalter (G i j) j row) row) i m)).
  2:{ intros i m. unfold for_range.
      apply (for_each_zalter_same (fun j => zalter (G i j) j)). }
  apply list_eq. intros k.
  destruct (decide (Z.of_nat k < rows)) as [Hk | Hk].
  - rewrite lookup_mat_tabulate by assumption.
    destruct (decide (rlo <= Z.of_nat k < rhi)) as [Hr | Hr].
    + rewrite for_each_zalter_hit by (try apply Hin; assumption).
      unfold mat_fill. rewrite lookup_replicate_2 by lia. cbn. f_equal.
      apply list_eq. intros c. rewrite list_lookup_fmap.
      destruct (decide (Z.of_nat c < cols)) as [Hc | Hc].
      * rewrite lookup_seqZ_lt by assumption. cbn.
        destruct (decide (clo <= Z.of_nat c < chi)) as [Hcc | Hcc].
        -- rewrite for_each_zalter_hit
             by (try apply NoDup_seqZ; apply elem_of_seqZ; lia).
           rewrite lookup_replicate_2 by lia. cbn.
           destruct (decide (rlo <= Z.of_nat k < rhi /\ clo <= 0 + Z.of_nat c < chi));
             [|lia].
           reflexivity.
        -- rewrite for_each_zalter_miss by (rewrite elem_of_seqZ; lia).
           rewrite lookup_replicate_2 by lia.
           destruct (decide (rlo <= Z.of_nat k < rhi /\ clo <= 0 + Z.of_nat c < chi));
             [lia|reflexivity].
      * rewrite lookup_seqZ_ge by lia. cbn.
        apply lookup_ge_None_2.
        rewrite for_each_zalter_length, length_replicate. lia.
    + rewrite for_each_zalter_miss by (rewrite Hin; assumption).
      unfold mat_fill. rewrite lookup_replicate_2 by lia. f_equal.
      apply list_eq. intros c. rewrite list_lookup_fmap.
      destruct (decide (Z.of_nat c < cols)) as [Hc | Hc].
      * rewrite lookup_seqZ_lt, lookup_replicate_2 by lia. cbn.
        destruct (decide (rlo <= Z.of_nat k < rhi /\ clo <= 0 + Z.of_nat c < chi));
          [lia|reflexivity].
      * rewrite lookup_seqZ_ge by lia. apply lookup_replicate_None. lia.
  - rewrite (lookup_ge_None_2 (mat_tabulate _ _ _))
      by (rewrite length_mat_tabulate; lia).
    apply lookup_ge_None_2.
    rewrite for_each_zalter_length. unfold mat_fill.
    rewrite length_replicate. lia.
Qed.

End TabulateFacts.

Section FillFacts.
Context {A : Type}.

(** The same loop nest over the whole array. *)
Lemma fill_all (a0 : A) (rows cols : Z) (idxI : list Z) (G : Z -> Z -> A -> A) :
  idxI ≡ₚ seqZ 0 (rows - 0) ->
  for_each idxI (fun i m =>
    for_range 0 cols (fun j m => zalter (zalter (G i j) j) i m) m)
    (mat_fill rows cols a0)
  = mat_tabulate rows cols (fun i j => G i j a0).
Proof.
  intros Hperm. rewrite (fill_rect a0 rows cols idxI 0 rows 0 cols G Hperm).
  apply mat_tabulate_ext. intros i j Hi Hj.
  destruct (decide (0 <= i < rows /\ 0 <= j < cols)); [reflexivity|lia].
Qed.

End FillFacts.

Lemma mat_set3_thrice (m : list (list (list Z))) (i j a b c : Z) :
  mat_set3 (mat_set3 (mat_set3 m i j 0 a) i j 1 b) i j 2 c
  = zalter (zalter (fun px => zalter (fun _ => c) 2
                                (zalter (fun _ => b) 1
                                   (zalter (fun _ => a) 0 px))) j) i m.
Proof.
  unfold mat_set3. rewrite !zalter_zalter.
  apply zalter_ext. intros row. unfold compose.
  rewrite !zalter_zalter. apply zalter_ext. intros px. reflexivity.
Qed.

(** ** The stages, cell by cell *)

Section AltStages.
Import AltSobel.
Variable self : AltSobel.t.

Lemma alt_convertToRGB_cells (input : list (list (list Z))) :
  convertToRGB self input
  = mat_tabulate (height self) (width self)
      (fun i j => rgb_of_bgr (mat_at input i j)).
Proof.
  unfold convertToRGB, for_range at 1.
  rewrite (for_each_ext _ _
    (fun i m => for_range 0 (width self) (fun j m =>
       zalter (zalter (fun px =>
         zalter (fun _ => zlookup (mat_at input i j) 0) 2
           (zalter (fun _ => zlookup (mat_at input i j) 1) 1
              (zalter (fun _ => zlookup (mat_at input i j) 2) 0 px))) j) i m) m)).
  2:{ intros i m. apply for_each_ext. intros j m'. apply mat_set3_thrice. }
  rewrite fill_all by reflexivity.
  apply mat_tabulate_ext. intros i j _ _. reflexivity.
Qed.

Lemma alt_convertToGrayscale_cells (rgbMatrix : list (list (list Z))) :
  convertToGrayscale self rgbMatrix
  = mat_tabulate (height self) (width self)
      (fun i j => let pixel := mat_at rgbMatrix i j in
                  luminance (zlookup pixel 0) (zlookup pixel 1) (zlookup pixel 2)).
Proof.
  unfold convertToGrayscale, for_range at 1.
  exact (fill_all 0 (height self) (width self) _
           (fun i j _ => let pixel := mat_at rgbMatrix i j in
              luminance (zlookup pixel 0) (zlookup pixel 1) (zlookup pixel 2))
           (reflexivity _)).
Qed.

Lemma alt_computeGradient_cells (kernel grayImage : list (list Z)) :
  computeGradient kernel self grayImage
  = mat_tabulate (height self) (width self)
      (gradient_cell kernel (scale self) (delta self)
         (height self) (width self) grayImage).
Proof.
  unfold computeGradient, for_range at 1.
  exact (fill_rect 0 (height self) (width self) _ _ _ _ _
           (fun i j _ => affine (scale self) (delta self)
                           (accumulate kernel grayImage i j))
           (reflexivity _)).
Qed.

Lemma alt_combineGradients_cells (gradX gradY : list (list Z)) :
  combineGradients self gradX gradY
  = mat_tabulate (height self) (width self)
      (fun i j => combine_pixel (mat_at gradX i j) (mat_at gradY i j)).
Proof.
  unfold combineGradients, for_range at 1.
  exact (fill_all 0 (height self) (width self) _
           (fun i j _ => combine_pixel (mat_at gradX i j) (mat_at gradY i j))
           (reflexivity _)).
Qed.

End AltStages.

Section OmpStages.
Import OmpSobel.
Variable sched : Schedule.
Hypothesis sched_valid : valid_schedule sched.
Variable self : OmpSobel.t.

Lemma omp_convertToRGB_cells (input : list (list (list Z))) :
  convertToRGB sched self input
  = mat_tabulate (height self) (width self)
      (fun i j => rgb_of_bgr (mat_at input i j)).
Proof.
  unfold convertToRGB, parallel_for.
  rewrite (for_each_ext _ _
    (fun i m => for_range 0 (width self) (fun j m =>
       zalter (zalter (fun px =>
         zalter (fun _ => zlookup (mat_at input i j) 0) 2
           (zalter (fun _ => zlookup (mat_at input i j) 1) 1
              (zalter (fun _ => zlookup (mat_at input i j) 2) 0 px))) j) i m) m)).
  2:{ intros i m. apply for_each_ext. intros j m'. apply mat_set3_thrice. }
  rewrite fill_all by apply sched_valid.
  apply mat_tabulate_ext. intros i j _ _. reflexivity.
Qed.

Lemma omp_convertToGrayscale_cells (rgbImage : list (list (list Z))) :
  convertToGrayscale sched self rgbImage
  = mat_tabulate (height self) (width self)
      (fun i j => let pixel := mat_at rgbImage i j in
                  luminance (zlookup pixel 2) (zlookup pixel 1) (zlookup pixel 0)).
Proof.
  unfold convertToGrayscale, parallel_for.
  exact (fill_all 0 (height self) (width self) _
           (fun i j _ => let pixel := mat_at rgbImage i j in
              luminance (zlookup pixel 2) (zlookup pixel 1) (zlookup pixel 0))
           (sched_valid _ _ _)).
Qed.

Lemma omp_computeGradient_cells (region : nat) (kernel grayImage : list (list Z)) :
  computeGradient sched region kernel self grayImage
  = mat_tabulate (height self) (width self)
      (gradient_cell kernel (scale self) (delta self)
         (height self) (width self) grayImage).
Proof.
  unfold computeGradient, parallel_for.
  exact (fill_rect 0 (height self) (width self) _ _ _ _ _
           (fun i j _ => affine (scale self) (delta self)
                           (accumulate kernel grayImage i j))
           (sched_valid _ _ _)).
Qed.

Lemma omp_combineGradients_cells (gradX gradY : list (list Z)) :
  combineGradients sched self gradX gradY
  = mat_tabulate (height self) (width self)
      (fun i j => combine_pixel (mat_at gradX i j) (mat_at gradY i j)).
Proof.
  unfold combineGradients, parallel_for.
  exact (fill_all 0 (height self) (width self) _
           (fun i j _ => combine_pixel (mat_at gradX i j) (mat_at gradY i j))
           (sched_valid _ _ _)).
Qed.

End OmpStages.

(** ** The accumulated kernel sum *)

Section Accumulation.
Import CInt.

(** A loop that adds [f x] to an [int] accumulator, with wrap-around,
    for every [x] of [idx]. *)
Lemma accumulate_loop (step : Z -> Z -> Z) (f : Z -> Z) (idx : list Z) :
  (forall x g, wrap32 (step x g) = wrap32 (g + f x)) ->
  (forall x g, int_range g -> int_range (step x g)) ->
  forall g0,
    wrap32 (for_each idx step g0) = wrap32 (g0 + Zsum (f <$> idx))
    /\ (int_range g0 -> int_range (for_each idx step g0)).
Proof.
  intros Hstep Hrange. induction idx as [|x idx IH]; intros g0.
  - unfold Zsum. cbn. split; [f_equal; lia | auto].
  - rewrite for_each_cons. destruct (IH (step x g0)) as [IHv IHr].
    split.
    + rewrite IHv. rewrite <- wrap32_add_l, Hstep, wrap32_add_l.
      f_equal. unfold Zsum. cbn. lia.
    + intros Hg0. apply IHr, Hrange, Hg0.
Qed.

Lemma accumulate_dot_product (kernel grayImage : list (list Z)) (i j : Z) :
  accumulate kernel grayImage i j = wrap32 (dot_product kernel grayImage i j).
Proof.
  unfold accumulate, dot_product, for_range.
  set (k := kernel_size kernel). set (offset := k ÷ 2). rewrite !Z.sub_0_r.
  set (term := fun ki kj =>
         mat_at kernel ki kj * mat_at grayImage (i + ki - offset) (j + kj - offset)).
  assert (forall ki g,
             wrap32 (for_each (seqZ 0 k)
                       (fun kj gradient => wrap32 (gradient + wrap32 (term ki kj))) g)
             = wrap32 (g + Zsum (term ki <$> seqZ 0 k))
             /\ (int_range g ->
                 int_range (for_each (seqZ 0 k)
                       (fun kj gradient => wrap32 (gradient + wrap32 (term ki kj))) g)))
    as Hinner.
  { intros ki g. apply (accumulate_loop _ (term ki)).
    - intros x g'. rewrite wrap32_idemp. apply wrap32_add_r.
    - intros x g' _. apply wrap32_range. }
  destruct (accumulate_loop
              (fun ki gradient =>
                 for_each (seqZ 0 k)
                   (fun kj gradient => wrap32 (gradient + wrap32 (term ki kj)))
                   gradient)
              (fun ki => Zsum (term ki <$> seqZ 0 k)) (seqZ 0 k)
              (fun ki g => proj1 (Hinner ki g))
              (fun ki g => proj2 (Hinner ki g)) 0) as [Hv Hr].
  change (for_each (seqZ 0 k)
            (fun ki gradient =>
               for_each (seqZ 0 k)
                 (fun kj gradient => wrap32 (gradient + wrap32 (term ki kj)))
                 gradient) 0
          = wrap32 (0 + Zsum ((fun ki => Zsum (term ki <$> seqZ 0 k)) <$> seqZ 0 k))).
  rewrite <- (wrap32_small _ (Hr ltac:(unfold int_range; lia))).
  exact Hv.
Qed.

End Accumulation.

(** ** Reading cells *)

Lemma mat_at_fill {A : Type} `{!Inhabited A} (rows cols : Z) (a : A) (i j : Z) :
  0 <= i < rows -> 0 <= j < cols -> mat_at (mat_fill rows cols a) i j = a.
Proof.
  intros Hi Hj. rewrite <- mat_tabulate_const.
  apply (mat_at_tabulate rows cols (fun _ _ => a)); assumption.
Qed.

Lemma zlookup_u8 (row : list Z) (j : Z) :
  Forall (fun v => 0 <= v < 256) row -> 0 <= zlookup row j < 256.
Proof.
  intros Hrow. unfold zlookup.
  destruct (decide (0 <= j)); [|cbn; lia].
  destruct (row !! Z.to_nat j) as [v|] eqn:Ev.
  - rewrite (list_lookup_total_correct _ _ _ Ev).
    exact (proj1 (Forall_lookup _ _) Hrow _ _ Ev).
  - rewrite list_lookup_total_alt, Ev. cbn. lia.
Qed.

Lemma mat_at_u8 (m : list (list Z)) (i j : Z) :
  is_u8_image m -> 0 <= mat_at m i j < 256.
Proof.
  intros Hm. unfold mat_at. apply zlookup_u8.
  unfold zlookup. destruct (decide (0 <= i)); [|constructor].
  destruct (m !! Z.to_nat i) as [row|] eqn:Er.
  - rewrite (list_lookup_total_correct _ _ _ Er).
    exact (proj1 (Forall_lookup _ _) Hm _ _ Er).
  - rewrite list_lookup_total_alt, Er. constructor.
Qed.

(** ** The gradient stage (claims C3, C4) *)

(** The affine step rounds toward zero: it returns the integer part of
    the double [scale * gradient + delta] whenever that is an [int]. *)
Lemma affine_truncates (scale delta : float) (gradient z : Z) :
  Double.trunc_to_Z (scale * Double.of_int gradient + delta)%float = Some z ->
  CInt.int_range z ->
  affine scale delta gradient = z.
Proof.
  intros Ht Hz. unfold affine, Double.cast_int. rewrite Ht.
  unfold CInt.int_range in Hz.
  replace (- 2 ^ 31 <=? z) with true by (symmetry; apply Z.leb_le; lia).
  replace (z <? 2 ^ 31) with true by (symmetry; apply Z.ltb_lt; lia).
  reflexivity.
Qed.

Lemma kernel_offset_nonneg (kernel : list (list Z)) :
  0 <= kernel_size kernel -> 0 <= kernel_size kernel ÷ 2.
Proof. intros Hk. apply Z.quot_pos; lia. Qed.

(** Inside the border the stored value is the affine image of the dot
    product, as long as that fits an [int]. *)
Lemma gradient_cell_interior
    (kernel : list (list Z)) (scale delta : float) (rows cols : Z)
    (grayImage : list (list Z)) (i j : Z) :
  let offset := kernel_size kernel ÷ 2 in
  offset <= i < rows - offset -> offset <= j < cols - offset ->
  CInt.int_range (dot_product kernel grayImage i j) ->
  gradient_cell kernel scale delta rows cols grayImage i j
  = affine scale delta (dot_product kernel grayImage i j).
Proof.
  intros offset Hi Hj HS. unfold gradient_cell. fold offset.
  destruct (decide (offset <= i < rows - offset /\ offset <= j < cols - offset)); [|lia].
  rewrite accumulate_dot_product, wrap32_small by assumption. reflexivity.
Qed.

(** The integer part that the cast takes is the value of the double
    rounded toward zero. *)
Lemma trunc_to_Z_fraction (x : float) (q : Z * Z) :
  fraction_of x = Some q -> Double.trunc_to_Z x = Some (round_toward_zero q).
Proof.
  unfold fraction_of, Double.trunc_to_Z, round_toward_zero.
  destruct (Prim2SF x) as [s | s | | s m e]; try discriminate.
  - intros [= <-]. reflexivity.
  - intros [= <-]. f_equal.
    destruct (0 <=? e) eqn:He; cbn [fst snd].
    + rewrite Z.quot_1_r. destruct s; [|reflexivity].
      rewrite <- Pos2Z.opp_pos. ring.
    + apply Z.leb_gt in He.
      assert (0 < 2 ^ (- e)) as Hpow by (apply Z.pow_pos_nonneg; lia).
      destruct s.
      * rewrite <- Pos2Z.opp_pos, Z.quot_opp_l by lia.
        rewrite Z.quot_div_nonneg by lia. reflexivity.
      * rewrite Z.quot_div_nonneg by lia. reflexivity.
Qed.

(** C3. At every interior pixel [(i, j)], offset <= i < H - offset and
    offset <= j < W - offset with offset = k / 2 for a kernel of size k,
    the gradient stage stores round_toward_zero(scale * S + delta): S is
    the integer dot product of the kernel with the k x k neighbourhood of
    [(i, j)], a sum that the code accumulates in an [int] and that has to
    fit one; scale * S + delta is the binary64 number the code computes,
    of exact value q; and the stored [int] is q with its fractional part
    dropped, whenever that is an [int] (otherwise the cast is undefined in
    C++).  [computeGradientX] and [computeGradientY] are the instances for
    the two Sobel tables. *)
Theorem computeGradient_interior
    (kernel : list (list Z)) (self : AltSobel.t) (grayImage : list (list Z)) (i j : Z)
    (q : Z * Z) :
  let k := kernel_size kernel in
  let offset := k ÷ 2 in
  let rawSum := dot_product kernel grayImage i j in
  0 <= k ->
  offset <= i < AltSobel.height self - offset ->
  offset <= j < AltSobel.width self - offset ->
  CInt.int_range rawSum ->
  fraction_of (AltSobel.scale self * Double.of_int rawSum + AltSobel.delta self)%float
  = Some q ->
  CInt.int_range (round_toward_zero q) ->
  mat_at (AltSobel.computeGradient kernel self grayImage) i j = round_toward_zero q.
Proof.
  intros k offset rawSum Hk Hi Hj HS Hq Hfit.
  pose proof (kernel_offset_nonneg kernel Hk) as Hoff. fold k offset in Hoff.
  rewrite alt_computeGradient_cells, mat_at_tabulate by lia.
  rewrite gradient_cell_interior by assumption.
  apply affine_truncates; [|exact Hfit].
  apply trunc_to_Z_fraction. exact Hq.
Qed.

(** On the image 1 .. 9 the centre cell holds 8 in [computeGradientX] and
    24 in [computeGradientY] (scale 1: the doubles 8.0 and 24.0).  With
    scale 0.5 and the Sobel sum -3 the double is -1.5 and the cell holds
    -1, not -2. *)
Lemma computeGradient_interior_witness :
  mat_at (AltSobel.computeGradientX
            (AltSobel.mk 3 (Double.of_int 1) (Double.of_int 0) 3 3)
            [[1; 2; 3]; [4; 5; 6]; [7; 8; 9]]) 1 1
  = 8
  /\ mat_at (AltSobel.computeGradientY
               (AltSobel.mk 3 (Double.of_int 1) (Double.of_int 0) 3 3)
               [[1; 2; 3]; [4; 5; 6]; [7; 8; 9]]) 1 1
     = 24
  /\ mat_at (AltSobel.computeGradientX
               (AltSobel.mk 3 0.5%float (Double.of_int 0) 3 3)
               [[3; 0; 0]; [0; 0; 0]; [0; 0; 0]]) 1 1
     = -1.
Proof.
  split; [|split].
  - apply (computeGradient_interior KernelUtil.sobelX
             (AltSobel.mk 3 (Double.of_int 1) (Double.of_int 0) 3 3)
             [[1; 2; 3]; [4; 5; 6]; [7; 8; 9]] 1 1 (2 ^ 52, 2 ^ 49));
      vm_compute; intuition discriminate.
  - apply (computeGradient_interior KernelUtil.sobelY
             (AltSobel.mk 3 (Double.of_int 1) (Double.of_int 0) 3 3)
             [[1; 2; 3]; [4; 5; 6]; [7; 8; 9]] 1 1 (3 * 2 ^ 51, 2 ^ 48));
      vm_compute; intuition discriminate.
  - apply (computeGradient_interior KernelUtil.sobelX
             (AltSobel.mk 3 0.5%float (Double.of_int 0) 3 3)
             [[3; 0; 0]; [0; 0; 0]; [0; 0; 0]] 1 1 (- 3 * 2 ^ 51, 2 ^ 52));
      vm_compute; intuition discriminate.
Defined.

(** The same cell in the OpenMP class, whatever the schedule. *)
Lemma omp_computeGradient_interior
    (sched : Schedule) (region : nat) (kernel : list (list Z)) (self : OmpSobel.t)
    (grayImage : list (list Z)) (i j : Z) :
  let k := kernel_size kernel in
  let offset := k ÷ 2 in
  let rawSum := dot_product kernel grayImage i j in
  valid_schedule sched ->
  0 <= k ->
  offset <= i < OmpSobel.height self - offset ->
  offset <= j < OmpSobel.width self - offset ->
  CInt.int_range rawSum ->
  mat_at (OmpSobel.computeGradient sched region kernel self grayImage) i j
  = affine (OmpSobel.scale self) (OmpSobel.delta self) rawSum.
Proof.
  intros k offset rawSum Hsched Hk Hi Hj HS.
  pose proof (kernel_offset_nonneg kernel Hk) as Hoff. fold k offset in Hoff.
  rewrite omp_computeGradient_cells, mat_at_tabulate by (assumption || lia).
  apply gradient_cell_interior; assumption.
Qed.

Lemma combine_pixel_zero : combine_pixel 0 0 = 0.
Proof. reflexivity. Qed.

(** C4. With the 3 x 3 Sobel kernels (offset 1), every cell of row 0, row
    H-1, column 0 and column W-1 is zero in both gradient fields, and
    therefore in the combined edge map. *)
Theorem border_cells_zero (self : AltSobel.t) (grayImage : list (list Z)) (i j : Z) :
  let gradX := AltSobel.computeGradientX self grayImage in
  let gradY := AltSobel.computeGradientY self grayImage in
  0 <= i < AltSobel.height self ->
  0 <= j < AltSobel.width self ->
  i = 0 \/ i = AltSobel.height self - 1 \/ j = 0 \/ j = AltSobel.width self - 1 ->
  mat_at gradX i j = 0 /\ mat_at gradY i j = 0
  /\ mat_at (AltSobel.combineGradients self gradX gradY) i j = 0.
Proof.
  intros gradX gradY Hi Hj Hborder.
  assert (forall kernel, kernel_size kernel ÷ 2 = 1 ->
            mat_at (AltSobel.computeGradient kernel self grayImage) i j = 0) as Hzero.
  { intros kernel Hoff.
    rewrite alt_computeGradient_cells, mat_at_tabulate by lia.
    unfold gradient_cell. rewrite Hoff.
    destruct (decide (1 <= i < AltSobel.height self - 1
                      /\ 1 <= j < AltSobel.width self - 1)); [lia|reflexivity]. }
  assert (mat_at gradX i j = 0) as HX by (apply Hzero; reflexivity).
  assert (mat_at gradY i j = 0) as HY by (apply Hzero; reflexivity).
  split; [exact HX|]. split; [exact HY|].
  rewrite alt_combineGradients_cells, mat_at_tabulate by lia.
  rewrite HX, HY. apply combine_pixel_zero.
Qed.

Lemma border_cells_zero_witness :
  let self := AltSobel.mk 3 (Double.of_int 1) (Double.of_int 0) 3 3 in
  let grayImage := [[1; 2; 3]; [4; 5; 6]; [7; 8; 9]] in
  let gradX := AltSobel.computeGradientX self grayImage in
  let gradY := AltSobel.computeGradientY self grayImage in
  mat_at gradX 2 1 = 0 /\ mat_at gradY 2 1 = 0
  /\ mat_at (AltSobel.combineGradients self gradX gradY) 2 1 = 0.
Proof.
  apply (border_cells_zero (AltSobel.mk 3 (Double.of_int 1) (Double.of_int 0) 3 3)
           [[1; 2; 3]; [4; 5; 6]; [7; 8; 9]] 2 1);
    cbn [AltSobel.height AltSobel.width]; lia.
Defined.

(** ** Loading (claim C6) *)

(** C6. When the input path does not decode to a non-empty image,
    [getEdges] throws a [runtime_error] that carries the path, before any
    stage runs: the object still has its old dimensions, nothing is
    written, and no image is returned.  This holds for both classes. *)
Theorem getEdges_load_failure
    (w : ImageUtils.World) (inputPath outputName : string) :
  mat_empty (ImageUtils.decode w inputPath) = true ->
  (forall self : AltSobel.t,
      AltSobel.getEdges self inputPath outputName w
      = (inl (runtime_error (String.append "Could not read the image: " inputPath)),
         self, w))
  /\ (forall (sched : Schedule) (self : OmpSobel.t),
         OmpSobel.getEdges sched self inputPath outputName w
         = (inl (runtime_error (String.append "Could not read the image: " inputPath)),
            self, w)).
Proof.
  intros Hempty. split; intros.
  - unfold AltSobel.getEdges, ImageUtils.getImage. rewrite Hempty. reflexivity.
  - unfold OmpSobel.getEdges, ImageUtils.getImage. rewrite Hempty. reflexivity.
Qed.

Lemma getEdges_load_failure_witness :
  let w := ImageUtils.mkWorld (fun _ => []) [] in
  (forall self : AltSobel.t,
      AltSobel.getEdges self "nonexistent.jpg" "out.jpg" w
      = (inl (runtime_error "Could not read the image: nonexistent.jpg"), self, w))
  /\ (forall (sched : Schedule) (self : OmpSobel.t),
         OmpSobel.getEdges sched self "nonexistent.jpg" "out.jpg" w
         = (inl (runtime_error "Could not read the image: nonexistent.jpg"), self, w)).
Proof.
  apply (getEdges_load_failure (ImageUtils.mkWorld (fun _ => []) [])
           "nonexistent.jpg" "out.jpg").
  reflexivity.
Defined.

(** A decodable image is processed and written under the output name. *)
Lemma getEdges_success
    (w : ImageUtils.World) (inputPath outputName : string) (self : AltSobel.t) :
  mat_empty (ImageUtils.decode w inputPath) = false ->
  exists edges self',
    AltSobel.getEdges self inputPath outputName w
    = (inr edges, self',
       ImageUtils.mkWorld (ImageUtils.decode w)
         (ImageUtils.written w ++ [(outputName, edges)])).
Proof.
  intros Hne. unfold AltSobel.getEdges, ImageUtils.getImage. rewrite Hne.
  eexists _, _. reflexivity.
Qed.

(** ** The kernel tables (claim C9) *)

Lemma length_columns (width : nat) (m : list (list Z)) : length (columns width m) = width.
Proof.
  induction width as [|w IH]; [reflexivity|].
  cbn [columns]. rewrite length_app, IH. cbn. lia.
Qed.

Lemma lookup_columns (width : nat) (m : list (list Z)) (c : nat) :
  (c < width)%nat -> columns width m !! c = Some ((fun row => row !!! c) <$> m).
Proof.
  induction width as [|w IH]; intros Hc; [lia|].
  cbn [columns]. destruct (decide (c = w)) as [-> | Hne].
  - rewrite lookup_app_r by (rewrite length_columns; lia).
    rewrite length_columns, Nat.sub_diag. reflexivity.
  - rewrite lookup_app_l by (rewrite length_columns; lia). apply IH. lia.
Qed.

(** Cell [(i, j)] of the turned matrix is cell [(rows - 1 - j, i)] of the
    original: the turn is clockwise. *)
Lemma rotate90_cell (m : list (list Z)) (i j : Z) :
  0 <= i < mat_cols m -> 0 <= j < mat_rows m ->
  mat_at (rotate90 m) i j = mat_at m (mat_rows m - 1 - j) i.
Proof.
  intros Hi Hj. unfold mat_at, zlookup, rotate90, mat_rows in *.
  destruct (decide (0 <= i)); [|lia]. destruct (decide (0 <= j)); [|lia].
  destruct (decide (0 <= Z.of_nat (length m) - 1 - j)); [|lia].
  rewrite (list_lookup_total_correct _ _
             (reverse ((fun row => row !!! Z.to_nat i) <$> m))).
  2:{ rewrite list_lookup_fmap, lookup_columns by lia. reflexivity. }
  rewrite list_lookup_total_alt, reverse_lookup by (rewrite length_fmap; lia).
  rewrite length_fmap, list_lookup_fmap.
  replace (length m - S (Z.to_nat j))%nat
    with (Z.to_nat (Z.of_nat (length m) - 1 - j)) by lia.
  destruct (m !! Z.to_nat (Z.of_nat (length m) - 1 - j)) as [row|] eqn:Er.
  - rewrite (list_lookup_total_correct _ _ _ Er). reflexivity.
  - apply lookup_ge_None in Er. lia.
Qed.

Lemma rotate90_example : rotate90 [[1; 2]; [3; 4]] = [[3; 1]; [4; 2]].
Proof. reflexivity. Qed.

(** C9. Turning the [sobelX] table by 90 degrees (clockwise) gives the
    [sobelY] table. *)
Theorem sobelY_is_sobelX_rotated : rotate90 KernelUtil.sobelX = KernelUtil.sobelY.
Proof. reflexivity. Qed.

(** Four quarter turns bring the table back, and the opposite quarter
    turn (three clockwise ones) gives [sobelY] negated. *)
Lemma rotate90_four_times :
  rotate90 (rotate90 (rotate90 (rotate90 KernelUtil.sobelX))) = KernelUtil.sobelX.
Proof. reflexivity. Qed.

Lemma sobelX_rotated_back :
  rotate90 (rotate90 (rotate90 KernelUtil.sobelX))
  = map (map Z.opp) KernelUtil.sobelY.
Proof. reflexivity. Qed.

(** ** The constructor argument (claim C10) *)

(** C10. The [kernelSize] given to the constructor is stored in [ksize]
    and never read: two objects built with different arguments return the
    same result and leave the same files, in both classes; the kernel size
    always comes from the Sobel tables. *)
Theorem kernelSize_is_ignored
    (k1 k2 : Z) (inputPath outputName : string) (w : ImageUtils.World) :
  (fst (fst (AltSobel.getEdges (AltSobel.new k1) inputPath outputName w))
   = fst (fst (AltSobel.getEdges (AltSobel.new k2) inputPath outputName w))
   /\ snd (AltSobel.getEdges (AltSobel.new k1) inputPath outputName w)
      = snd (AltSobel.getEdges (AltSobel.new k2) inputPath outputName w))
  /\ (forall sched : Schedule,
         fst (fst (OmpSobel.getEdges sched (OmpSobel.new k1) inputPath outputName w))
         = fst (fst (OmpSobel.getEdges sched (OmpSobel.new k2) inputPath outputName w))
         /\ snd (OmpSobel.getEdges sched (OmpSobel.new k1) inputPath outputName w)
            = snd (OmpSobel.getEdges sched (OmpSobel.new k2) inputPath outputName w)).
Proof.
  split; [|intros sched].
  - unfold AltSobel.getEdges.
    destruct (ImageUtils.getImage inputPath w) as [e | image]; split; reflexivity.
  - unfold OmpSobel.getEdges.
    destruct (ImageUtils.getImage inputPath w) as [e | image]; split; reflexivity.
Qed.

Lemma kernel_size_sobel :
  kernel_size KernelUtil.sobelX = 3 /\ kernel_size KernelUtil.sobelY = 3.
Proof. split; reflexivity. Qed.

(** ** Grayscale conversion (claims C1, C2) *)

(** The sequential class weighs the channels as documented. *)
Lemma alt_grayscale_cell
    (self : AltSobel.t) (rgbMatrix : list (list (list Z))) (i j red green blue : Z) :
  0 <= i < AltSobel.height self -> 0 <= j < AltSobel.width self ->
  mat_at rgbMatrix i j = [red; green; blue] ->
  mat_at (AltSobel.convertToGrayscale self rgbMatrix) i j = luminance red green blue.
Proof.
  intros Hi Hj Hpx.
  rewrite alt_convertToGrayscale_cells, mat_at_tabulate by lia.
  cbv zeta. rewrite Hpx. reflexivity.
Qed.

(** The OpenMP class reads the RGB pixel back to front: 0.299 goes to
    blue and 0.114 to red. *)
Lemma omp_grayscale_cell
    (sched : Schedule) (self : OmpSobel.t) (rgbImage : list (list (list Z)))
    (i j red green blue : Z) :
  valid_schedule sched ->
  0 <= i < OmpSobel.height self -> 0 <= j < OmpSobel.width self ->
  mat_at rgbImage i j = [red; green; blue] ->
  mat_at (OmpSobel.convertToGrayscale sched self rgbImage) i j
  = luminance blue green red.
Proof.
  intros Hsched Hi Hj Hpx.
  rewrite omp_convertToGrayscale_cells, mat_at_tabulate by (assumption || lia).
  cbv zeta. rewrite Hpx. reflexivity.
Qed.

(** Both classes turn the decoded BGR pixel into RGB in the same way. *)
Lemma convertToRGB_agree
    (sched : Schedule) (pself : OmpSobel.t) (self : AltSobel.t)
    (input : list (list (list Z))) :
  valid_schedule sched ->
  OmpSobel.height pself = AltSobel.height self ->
  OmpSobel.width pself = AltSobel.width self ->
  OmpSobel.convertToRGB sched pself input = AltSobel.convertToRGB self input.
Proof.
  intros Hsched Hh Hw.
  rewrite omp_convertToRGB_cells, alt_convertToRGB_cells, Hh, Hw by assumption.
  reflexivity.
Qed.

(** From the grayscale image on, the OpenMP stages compute what the
    sequential ones do, whatever the schedule. *)
Lemma computeGradient_agree
    (sched : Schedule) (region : nat) (kernel : list (list Z))
    (pself : OmpSobel.t) (self : AltSobel.t) (grayImage : list (list Z)) :
  valid_schedule sched ->
  OmpSobel.height pself = AltSobel.height self ->
  OmpSobel.width pself = AltSobel.width self ->
  OmpSobel.scale pself = AltSobel.scale self ->
  OmpSobel.delta pself = AltSobel.delta self ->
  OmpSobel.computeGradient sched region kernel pself grayImage
  = AltSobel.computeGradient kernel self grayImage.
Proof.
  intros Hsched Hh Hw Hs Hd.
  rewrite omp_computeGradient_cells, alt_computeGradient_cells, Hh, Hw, Hs, Hd
    by assumption.
  reflexivity.
Qed.

Lemma combineGradients_agree
    (sched : Schedule) (pself : OmpSobel.t) (self : AltSobel.t)
    (gradX gradY : list (list Z)) :
  valid_schedule sched ->
  OmpSobel.height pself = AltSobel.height self ->
  OmpSobel.width pself = AltSobel.width self ->
  OmpSobel.combineGradients sched pself gradX gradY
  = AltSobel.combineGradients self gradX gradY.
Proof.
  intros Hsched Hh Hw.
  rewrite omp_combineGradients_cells, alt_combineGradients_cells, Hh, Hw by assumption.
  reflexivity.
Qed.

(** The result of the OpenMP pipeline does not depend on the schedule. *)
Lemma omp_stages_any_schedule
    (sched1 sched2 : Schedule) (self : OmpSobel.t) (image : list (list (list Z))) :
  valid_schedule sched1 -> valid_schedule sched2 ->
  OmpSobel.stages sched1 self image = OmpSobel.stages sched2 self image.
Proof.
  intros H1 H2. unfold OmpSobel.stages, OmpSobel.computeGradientX,
    OmpSobel.computeGradientY.
  rewrite !omp_combineGradients_cells, !omp_computeGradient_cells,
    !omp_convertToGrayscale_cells, !omp_convertToRGB_cells by assumption.
  reflexivity.
Qed.

Lemma sequential_valid : valid_schedule sequential.
Proof. intros region lo hi. reflexivity. Qed.

Lemma backwards_valid : valid_schedule backwards.
Proof. intros region lo hi. unfold backwards. apply reverse_Permutation. Qed.

(** C2 (the code departs from it). On a pure red pixel the documented
    luminance is 76 = trunc(0.299 * 255), which the sequential class
    stores; the OpenMP class stores 29 = trunc(0.114 * 255), the weight of
    blue. *)
Theorem omp_grayscale_weights_swapped :
  luminance 255 0 0 = 76
  /\ AltSobel.convertToGrayscale
       (AltSobel.mk 3 (Double.of_int 1) (Double.of_int 0) 1 1) [[[255; 0; 0]]]
     = [[76]]
  /\ OmpSobel.convertToGrayscale sequential
       (OmpSobel.mk 3 (Double.of_int 1) (Double.of_int 0) 1 1) [[[255; 0; 0]]]
     = [[29]].
Proof. repeat split; vm_compute; reflexivity. Qed.

(** C1 (the code departs from it). On a 3 x 3 image whose left column is
    pure red and whose other pixels are black, the sequential pipeline
    returns 255 at the centre and the OpenMP pipeline 116, under the
    in-order schedule as under the reversed one. *)
Theorem parallel_differs_from_sequential :
  let w := one_file "red.png" red_column in
  fst (fst (AltSobel.getEdges (AltSobel.new 3) "red.png" "edges.png" w))
  = inr [[0; 0; 0]; [0; 255; 0]; [0; 0; 0]]
  /\ fst (fst (OmpSobel.getEdges sequential (OmpSobel.new 3) "red.png" "edges.png" w))
     = inr [[0; 0; 0]; [0; 116; 0]; [0; 0; 0]]
  /\ fst (fst (OmpSobel.getEdges backwards (OmpSobel.new 3) "red.png" "edges.png" w))
     = inr [[0; 0; 0]; [0; 116; 0]; [0; 0; 0]].
Proof. repeat split; vm_compute; reflexivity. Qed.

(** ** The magnitude combiner (claim C5) *)

Lemma combine_pixel_range (gx gy : Z) : 0 <= combine_pixel gx gy <= 255.
Proof.
  unfold combine_pixel. pose proof (to_u8_range (Z.min 255 (magnitude gx gy))). lia.
Qed.

(** While [gx * gx + gy * gy] fits an [int], the combiner stores the
    integer square root, capped at 255. *)
Lemma combine_pixel_magnitude (gx gy : Z) :
  gx * gx + gy * gy < 2 ^ 31 ->
  combine_pixel gx gy = Z.min 255 (Z.sqrt (gx * gx + gy * gy)).
Proof.
  intros Hfit.
  pose proof (Z.square_nonneg gx). pose proof (Z.square_nonneg gy).
  unfold combine_pixel, magnitude.
  rewrite (wrap32_small (gx * gx)), (wrap32_small (gy * gy)), wrap32_small
    by (unfold CInt.int_range; lia).
  rewrite cast_int_sqrt by lia.
  pose proof (Z.sqrt_nonneg (gx * gx + gy * gy)).
  unfold CInt.to_u8. apply Z.mod_small. lia.
Qed.

(** C5 as stated fails once [gx * gx] leaves the [int] range: 65536 *
    65536 wraps to 0, the combiner stores 0, and the formula gives 255. *)
Lemma combineGradients_wraps :
  mat_at (AltSobel.combineGradients
            (AltSobel.mk 3 (Double.of_int 1) (Double.of_int 0) 1 1) [[65536]] [[0]]) 0 0
  <> Z.min 255 (Z.sqrt (65536 * 65536 + 0 * 0)).
Proof. vm_compute. discriminate. Qed.

(** ** Sums over the kernel window *)

Lemma Zsum_cons (x : Z) (l : list Z) : Zsum (x :: l) = x + Zsum l.
Proof. reflexivity. Qed.

Lemma Zsum_fmap_ext {B : Type} (f g : B -> Z) (l : list B) :
  (forall x, x ∈ l -> f x = g x) -> Zsum (f <$> l) = Zsum (g <$> l).
Proof.
  induction l as [|x l IH]; intros Hext; [reflexivity|].
  rewrite !fmap_cons, !Zsum_cons, Hext, IH; [reflexivity| |left].
  intros y Hy. apply Hext. right. exact Hy.
Qed.

Lemma Zsum_fmap_scale {B : Type} (f : B -> Z) (v : Z) (l : list B) :
  Zsum ((fun x => f x * v) <$> l) = Zsum (f <$> l) * v.
Proof.
  induction l as [|x l IH]; [reflexivity|].
  rewrite !fmap_cons, !Zsum_cons, IH. ring.
Qed.

Lemma Zsum_fmap_abs_le {B : Type} (f g : B -> Z) (l : list B) :
  (forall x, x ∈ l -> Z.abs (f x) <= g x) -> Z.abs (Zsum (f <$> l)) <= Zsum (g <$> l).
Proof.
  induction l as [|x l IH]; intros Hle; [cbn; lia|].
  rewrite !fmap_cons, !Zsum_cons.
  assert (Z.abs (f x) <= g x) by (apply Hle; left).
  assert (Z.abs (Zsum (f <$> l)) <= Zsum (g <$> l))
    by (apply IH; intros y Hy; apply Hle; right; exact Hy).
  lia.
Qed.

(** On a window of equal samples the dot product is the sample times the
    sum of the coefficients. *)
Lemma dot_product_flat (kernel grayImage : list (list Z)) (i j v : Z) :
  let k := kernel_size kernel in
  let offset := k ÷ 2 in
  (forall ki kj, 0 <= ki < k -> 0 <= kj < k ->
                 mat_at grayImage (i + ki - offset) (j + kj - offset) = v) ->
  dot_product kernel grayImage i j = kernel_total kernel * v.
Proof.
  intros k offset Hflat. unfold dot_product, kernel_total. fold k offset.
  rewrite <- Zsum_fmap_scale. apply Zsum_fmap_ext. intros ki Hki.
  apply elem_of_seqZ in Hki.
  rewrite <- Zsum_fmap_scale. apply Zsum_fmap_ext. intros kj Hkj.
  apply elem_of_seqZ in Hkj.
  rewrite Hflat by lia. reflexivity.
Qed.

(** On an 8-bit image the dot product is bounded by 255 times the sum of
    the absolute coefficients. *)
Lemma dot_product_bound (kernel grayImage : list (list Z)) (i j : Z) :
  is_u8_image grayImage ->
  Z.abs (dot_product kernel grayImage i j) <= kernel_weight kernel * 255.
Proof.
  intros Hu8. unfold dot_product, kernel_weight.
  set (k := kernel_size kernel). set (offset := k ÷ 2).
  rewrite <- Zsum_fmap_scale. apply Zsum_fmap_abs_le. intros ki _.
  rewrite <- Zsum_fmap_scale. apply Zsum_fmap_abs_le. intros kj _.
  pose proof (mat_at_u8 grayImage (i + ki - offset) (j + kj - offset) Hu8).
  rewrite Z.abs_mul. apply Z.mul_le_mono_nonneg; lia.
Qed.

Lemma sobel_totals :
  kernel_total KernelUtil.sobelX = 0 /\ kernel_total KernelUtil.sobelY = 0.
Proof. split; reflexivity. Qed.

Lemma sobel_weights :
  kernel_weight KernelUtil.sobelX = 8 /\ kernel_weight KernelUtil.sobelY = 8.
Proof. split; reflexivity. Qed.

(** ** Uniform images (claim C7) *)

Lemma affine_default_zero : affine (Double.of_int 1) (Double.of_int 0) 0 = 0.
Proof. reflexivity. Qed.

Lemma mat_tabulate_of_fill {A B : Type} `{!Inhabited A}
    (rows cols : Z) (a : A) (f : A -> B) :
  mat_tabulate rows cols (fun i j => f (mat_at (mat_fill rows cols a) i j))
  = mat_fill rows cols (f a).
Proof.
  rewrite <- (mat_tabulate_const rows cols (f a)).
  apply mat_tabulate_ext. intros i j Hi Hj.
  rewrite mat_at_fill by assumption. reflexivity.
Qed.

(** A kernel whose coefficients sum to zero has a zero gradient on a
    uniform image: zero in the interior by the sum, zero on the border
    because no cell is written there. *)
Lemma gradient_of_uniform (kernel : list (list Z)) (rows cols v : Z) :
  0 <= kernel_size kernel -> kernel_total kernel = 0 ->
  mat_tabulate rows cols
    (gradient_cell kernel (Double.of_int 1) (Double.of_int 0) rows cols
       (mat_fill rows cols v))
  = mat_fill rows cols 0.
Proof.
  intros Hk Htotal. rewrite <- (mat_tabulate_const rows cols 0).
  apply mat_tabulate_ext. intros i j Hi Hj. unfold gradient_cell.
  set (k := kernel_size kernel) in *. set (offset := k ÷ 2).
  destruct (decide (offset <= i < rows - offset /\ offset <= j < cols - offset))
    as [Hin|]; [|reflexivity].
  assert (0 <= offset) by (apply Z.quot_pos; lia).
  assert (k <= 2 * offset + 1) as Hodd.
  { pose proof (Z.quot_rem' k 2). pose proof (Z.rem_bound_pos k 2 Hk ltac:(lia)).
    subst offset. lia. }
  rewrite accumulate_dot_product, (dot_product_flat kernel _ i j v).
  - rewrite Htotal. apply affine_default_zero.
  - fold k offset. intros ki kj Hki Hkj. apply mat_at_fill; lia.
Qed.

Lemma alt_stages_uniform (self : AltSobel.t) (pixel : list Z) :
  AltSobel.scale self = Double.of_int 1 -> AltSobel.delta self = Double.of_int 0 ->
  AltSobel.stages self (mat_fill (AltSobel.height self) (AltSobel.width self) pixel)
  = mat_fill (AltSobel.height self) (AltSobel.width self) 0.
Proof.
  intros Hs Hd.
  unfold AltSobel.stages, AltSobel.computeGradientX, AltSobel.computeGradientY.
  rewrite alt_convertToRGB_cells, mat_tabulate_of_fill.
  rewrite alt_convertToGrayscale_cells.
  rewrite (mat_tabulate_of_fill _ _ _
             (fun px => luminance (zlookup px 0) (zlookup px 1) (zlookup px 2))).
  rewrite !alt_computeGradient_cells, Hs, Hd.
  rewrite !gradient_of_uniform by (reflexivity || (vm_compute; discriminate)).
  rewrite alt_combineGradients_cells.
  rewrite <- (mat_tabulate_const _ _ 0). apply mat_tabulate_ext. intros i j Hi Hj.
  rewrite !mat_at_tabulate by assumption. apply combine_pixel_zero.
Qed.

Lemma omp_stages_uniform (sched : Schedule) (self : OmpSobel.t) (pixel : list Z) :
  valid_schedule sched ->
  OmpSobel.scale self = Double.of_int 1 -> OmpSobel.delta self = Double.of_int 0 ->
  OmpSobel.stages sched self
    (mat_fill (OmpSobel.height self) (OmpSobel.width self) pixel)
  = mat_fill (OmpSobel.height self) (OmpSobel.width self) 0.
Proof.
  intros Hsched Hs Hd.
  unfold OmpSobel.stages, OmpSobel.computeGradientX, OmpSobel.computeGradientY.
  rewrite omp_convertToRGB_cells, mat_tabulate_of_fill by assumption.
  rewrite omp_convertToGrayscale_cells by assumption.
  rewrite (mat_tabulate_of_fill _ _ _
             (fun px => luminance (zlookup px 2) (zlookup px 1) (zlookup px 0))).
  rewrite !omp_computeGradient_cells, Hs, Hd by assumption.
  rewrite !gradient_of_uniform by (reflexivity || (vm_compute; discriminate)).
  rewrite omp_combineGradients_cells by assumption.
  rewrite <- (mat_tabulate_const _ _ 0). apply mat_tabulate_ext. intros i j Hi Hj.
  rewrite !mat_at_tabulate by assumption. apply combine_pixel_zero.
Qed.

Lemma uniform_is_fill {A : Type} (rows cols : nat) (a : A) :
  replicate rows (replicate cols a) = mat_fill (Z.of_nat rows) (Z.of_nat cols) a.
Proof. unfold mat_fill. rewrite !Nat2Z.id. reflexivity. Qed.

Lemma uniform_dims {A : Type} (rows cols : nat) (a : A) :
  (0 < rows)%nat -> (0 < cols)%nat ->
  mat_rows (replicate rows (replicate cols a)) = Z.of_nat rows
  /\ mat_cols (replicate rows (replicate cols a)) = Z.of_nat cols
  /\ mat_empty (replicate rows (replicate cols a)) = false.
Proof.
  intros Hr Hc. unfold mat_empty, mat_rows.
  destruct rows as [|rows]; [lia|]. destruct cols as [|cols]; [lia|].
  cbn [replicate mat_cols]. rewrite !length_cons, !length_replicate.
  split; [reflexivity|]. split; [reflexivity|].
  apply orb_false_intro; apply Z.eqb_neq; lia.
Qed.

(** C7. A uniform image of any colour, decoded from the input path, gives
    an all-zero edge map in both classes: the Sobel coefficients sum to
    zero, so the gradients vanish in the interior; the border is never
    written; and the magnitude of (0, 0) is 0. *)
Theorem uniform_image_no_edges
    (rows cols : nat) (pixel : list Z) (kernelSize : Z)
    (inputPath outputName : string) (w : ImageUtils.World) (sched : Schedule) :
  (0 < rows)%nat -> (0 < cols)%nat ->
  ImageUtils.decode w inputPath = replicate rows (replicate cols pixel) ->
  valid_schedule sched ->
  fst (fst (AltSobel.getEdges (AltSobel.new kernelSize) inputPath outputName w))
  = inr (replicate rows (replicate cols 0))
  /\ fst (fst (OmpSobel.getEdges sched (OmpSobel.new kernelSize) inputPath outputName w))
     = inr (replicate rows (replicate cols 0)).
Proof.
  intros Hr Hc Hdecode Hsched.
  destruct (uniform_dims rows cols pixel Hr Hc) as (Hrows & Hcols & Hne).
  unfold AltSobel.getEdges, OmpSobel.getEdges, ImageUtils.getImage.
  rewrite Hdecode, Hne, Hrows, Hcols. cbn [fst].
  rewrite !(uniform_is_fill rows cols). split; f_equal.
  - apply (alt_stages_uniform
             (AltSobel.mk _ _ _ (Z.of_nat rows) (Z.of_nat cols))); reflexivity.
  - apply (omp_stages_uniform sched
             (OmpSobel.mk _ _ _ (Z.of_nat rows) (Z.of_nat cols)));
      [assumption | reflexivity | reflexivity].
Qed.

Lemma uniform_image_no_edges_witness :
  let w := one_file "grey.png" (replicate 4 (replicate 5 [70; 80; 90])) in
  fst (fst (AltSobel.getEdges (AltSobel.new 3) "grey.png" "edges.png" w))
  = inr (replicate 4 (replicate 5 0))
  /\ fst (fst (OmpSobel.getEdges backwards (OmpSobel.new 3) "grey.png" "edges.png" w))
     = inr (replicate 4 (replicate 5 0)).
Proof.
  apply (uniform_image_no_edges 4 5 [70; 80; 90] 3 "grey.png" "edges.png"
           (one_file "grey.png" (replicate 4 (replicate 5 [70; 80; 90]))) backwards);
    [lia | lia | reflexivity | apply backwards_valid].
Defined.

(** ** The scale factor (claim C8) *)

(** With the scale 1 and the delta 0 of the constructor the affine step
    is the identity. *)
Lemma affine_default (g : Z) :
  CInt.int_range g -> affine (Double.of_int 1) (Double.of_int 0) g = g.
Proof.
  intros Hg. unfold CInt.int_range in Hg.
  rewrite affine_whole_scale by (unfold CInt.int_range; lia). lia.
Qed.

Lemma accumulate_range (kernel grayImage : list (list Z)) (i j : Z) :
  CInt.int_range (accumulate kernel grayImage i j).
Proof. rewrite accumulate_dot_product. apply wrap32_range. Qed.

(** C8, as the code has it. For every whole-number scale s (delta 0; the
    constructor sets s = 1 and nothing changes it afterwards), running the
    gradient stage with scale 2s stores exactly twice what it stores with
    scale s, at every interior pixel of an 8-bit image, as long as 2s times
    the largest possible kernel sum (255 times the sum of the absolute
    coefficients, 2040 for Sobel) fits an [int]. *)
Theorem scale_doubling_whole_scale
    (kernel : list (list Z)) (s kernelSize rows cols : Z)
    (grayImage : list (list Z)) (i j : Z) :
  let self := AltSobel.mk kernelSize (Double.of_int s) (Double.of_int 0) rows cols in
  let doubled :=
    AltSobel.mk kernelSize (2 * Double.of_int s)%float (Double.of_int 0) rows cols in
  let offset := kernel_size kernel ÷ 2 in
  0 <= kernel_size kernel ->
  Z.abs s < 2 ^ 31 ->
  Z.abs (2 * s) * (kernel_weight kernel * 255) < 2 ^ 31 ->
  is_u8_image grayImage ->
  offset <= i < rows - offset -> offset <= j < cols - offset ->
  mat_at (AltSobel.computeGradient kernel doubled grayImage) i j
  = 2 * mat_at (AltSobel.computeGradient kernel self grayImage) i j.
Proof.
  intros self doubled offset Hk Hs Hfit Hu8 Hi Hj.
  pose proof (kernel_offset_nonneg kernel Hk) as Hoff. fold offset in Hoff.
  pose proof (dot_product_bound kernel grayImage i j Hu8) as Hb.
  pose proof (accumulate_range kernel grayImage i j) as Hacc.
  unfold CInt.int_range in Hacc.
  rewrite !alt_computeGradient_cells.
  cbn [AltSobel.height AltSobel.width AltSobel.scale AltSobel.delta self doubled].
  rewrite !mat_at_tabulate by lia.
  unfold gradient_cell. fold offset.
  destruct (decide (offset <= i < rows - offset /\ offset <= j < cols - offset)); [|lia].
  rewrite double_of_int_twice by lia.
  destruct (Z.eq_dec s 0) as [-> | Hs0].
  - rewrite !affine_whole_scale by (unfold CInt.int_range; lia). lia.
  - rewrite accumulate_dot_product, wrap32_small by (unfold CInt.int_range; nia).
    rewrite !affine_whole_scale by (unfold CInt.int_range; nia). ring.
Qed.

Lemma scale_doubling_whole_scale_witness :
  mat_at (AltSobel.computeGradientX
            (AltSobel.mk 3 (2 * Double.of_int 1)%float (Double.of_int 0) 3 3)
            [[1; 2; 3]; [4; 5; 6]; [7; 8; 9]]) 1 1
  = 2 * mat_at (AltSobel.computeGradientX
                  (AltSobel.mk 3 (Double.of_int 1) (Double.of_int 0) 3 3)
                  [[1; 2; 3]; [4; 5; 6]; [7; 8; 9]]) 1 1.
Proof.
  apply (scale_doubling_whole_scale KernelUtil.sobelX 1 3 3 3
           [[1; 2; 3]; [4; 5; 6]; [7; 8; 9]] 1 1);
    try (vm_compute; intuition discriminate).
  repeat (constructor; [repeat (constructor; [lia|]); constructor|]); constructor.
Defined.

(** C8 as stated fails for a scale that is not a whole number: with
    scale 1.5 and a kernel sum of 1 the stored gradient is 1, and with
    scale 3.0 it is 3, not 2. *)
Lemma scale_doubling_fails_for_fractions :
  let grayImage := [[0; 0; 1]; [0; 0; 0]; [0; 0; 0]] in
  let self := AltSobel.mk 3 1.5%float (Double.of_int 0) 3 3 in
  let doubled := AltSobel.mk 3 (2 * 1.5)%float (Double.of_int 0) 3 3 in
  dot_product KernelUtil.sobelX grayImage 1 1 <> 0
  /\ mat_at (AltSobel.computeGradientX self grayImage) 1 1 <> 0
  /\ mat_at (AltSobel.computeGradientX doubled grayImage) 1 1
     <> 2 * mat_at (AltSobel.computeGradientX self grayImage) 1 1.
Proof. repeat split; vm_compute; discriminate. Qed.

(** ** The stages inside the pipeline *)

Lemma mat_tabulate_u8 (rows cols : Z) (f : Z -> Z -> Z) :
  (forall i j, 0 <= f i j < 256) -> is_u8_image (mat_tabulate rows cols f).
Proof.
  intros Hf. unfold is_u8_image, mat_tabulate.
  apply Forall_fmap, Forall_forall. intros i _.
  apply Forall_fmap, Forall_forall. intros j _. apply Hf.
Qed.

(** The grayscale stage of either class yields 8-bit samples. *)
Lemma alt_grayscale_u8 (self : AltSobel.t) (rgbMatrix : list (list (list Z))) :
  is_u8_image (AltSobel.convertToGrayscale self rgbMatrix).
Proof.
  rewrite alt_convertToGrayscale_cells. apply mat_tabulate_u8.
  intros i j. apply to_u8_range.
Qed.

Lemma omp_grayscale_u8
    (sched : Schedule) (self : OmpSobel.t) (rgbImage : list (list (list Z))) :
  valid_schedule sched -> is_u8_image (OmpSobel.convertToGrayscale sched self rgbImage).
Proof.
  intros Hsched. rewrite omp_convertToGrayscale_cells by assumption.
  apply mat_tabulate_u8. intros i j. apply to_u8_range.
Qed.

Lemma kernel_weight_nonneg (kernel : list (list Z)) : 0 <= kernel_weight kernel * 255.
Proof.
  pose proof (dot_product_bound kernel [] 0 0 ltac:(constructor)). lia.
Qed.

(** On an 8-bit image, with the constructor's scale and delta, no stored
    gradient exceeds 255 times the kernel's weight: 2040 for Sobel. *)
Lemma gradient_cell_bound
    (kernel : list (list Z)) (rows cols : Z) (grayImage : list (list Z)) (i j : Z) :
  is_u8_image grayImage -> kernel_weight kernel * 255 < 2 ^ 31 ->
  Z.abs (gradient_cell kernel (Double.of_int 1) (Double.of_int 0)
           rows cols grayImage i j)
  <= kernel_weight kernel * 255.
Proof.
  intros Hu8 Hw. pose proof (dot_product_bound kernel grayImage i j Hu8) as Hb.
  pose proof (kernel_weight_nonneg kernel).
  unfold gradient_cell.
  destruct (decide (kernel_size kernel ÷ 2 <= i < rows - kernel_size kernel ÷ 2
                    /\ kernel_size kernel ÷ 2 <= j < cols - kernel_size kernel ÷ 2));
    [|cbn; lia].
  rewrite accumulate_dot_product, wrap32_small, affine_default
    by (unfold CInt.int_range; lia).
  exact Hb.
Qed.

(** At an interior pixel of an 8-bit image the two Sobel gradients are
    the affine images of their dot products, with no side condition. *)
Lemma sobel_gradient_interior
    (self : AltSobel.t) (grayImage : list (list Z)) (i j : Z) :
  is_u8_image grayImage ->
  1 <= i < AltSobel.height self - 1 -> 1 <= j < AltSobel.width self - 1 ->
  mat_at (AltSobel.computeGradientX self grayImage) i j
  = affine (AltSobel.scale self) (AltSobel.delta self)
      (dot_product KernelUtil.sobelX grayImage i j)
  /\ mat_at (AltSobel.computeGradientY self grayImage) i j
     = affine (AltSobel.scale self) (AltSobel.delta self)
         (dot_product KernelUtil.sobelY grayImage i j).
Proof.
  intros Hu8 Hi Hj.
  pose proof (dot_product_bound KernelUtil.sobelX grayImage i j Hu8) as HbX.
  pose proof (dot_product_bound KernelUtil.sobelY grayImage i j Hu8) as HbY.
  change (kernel_weight KernelUtil.sobelX * 255) with 2040 in HbX.
  change (kernel_weight KernelUtil.sobelY * 255) with 2040 in HbY.
  unfold AltSobel.computeGradientX, AltSobel.computeGradientY.
  rewrite !alt_computeGradient_cells, !mat_at_tabulate by lia.
  split; apply gradient_cell_interior;
    solve [exact Hi | exact Hj | unfold CInt.int_range; lia].
Qed.

(** In the sequential pipeline the squared gradients always fit an
    [int], so every pixel of the edge map is the capped integer square
    root of their sum. *)
Lemma alt_stages_magnitude
    (self : AltSobel.t) (image : list (list (list Z))) (i j : Z) :
  let grayImage := AltSobel.convertToGrayscale self (AltSobel.convertToRGB self image) in
  let gx := mat_at (AltSobel.computeGradientX self grayImage) i j in
  let gy := mat_at (AltSobel.computeGradientY self grayImage) i j in
  AltSobel.scale self = Double.of_int 1 -> AltSobel.delta self = Double.of_int 0 ->
  0 <= i < AltSobel.height self -> 0 <= j < AltSobel.width self ->
  mat_at (AltSobel.stages self image) i j = Z.min 255 (Z.sqrt (gx * gx + gy * gy)).
Proof.
  intros grayImage gx gy Hs Hd Hi Hj.
  pose proof (alt_grayscale_u8 self (AltSobel.convertToRGB self image)) as Hu8.
  fold grayImage in Hu8.
  assert (Z.abs gx <= 2040 /\ Z.abs gy <= 2040) as [Hgx Hgy].
  { subst gx gy. unfold AltSobel.computeGradientX, AltSobel.computeGradientY.
    rewrite !alt_computeGradient_cells, !mat_at_tabulate, Hs, Hd by lia.
    split.
    - apply (gradient_cell_bound KernelUtil.sobelX _ _ _ _ _ Hu8). reflexivity.
    - apply (gradient_cell_bound KernelUtil.sobelY _ _ _ _ _ Hu8). reflexivity. }
  unfold AltSobel.stages. fold grayImage.
  rewrite alt_combineGradients_cells, mat_at_tabulate by lia.
  fold gx gy. apply combine_pixel_magnitude. nia.
Qed.

(** ** The magnitude combiner on every input (claim C5) *)

(** The squares of two gradients of at most 2040 fit an [int]. *)
Lemma squares_fit (gx gy : Z) :
  Z.abs gx <= 2040 -> Z.abs gy <= 2040 -> gx * gx + gy * gy < 2 ^ 31.
Proof.
  intros Hx Hy.
  rewrite <- (Z.abs_square gx), <- (Z.abs_square gy).
  pose proof (Z.mul_le_mono_nonneg _ _ _ _ (Z.abs_nonneg gx) Hx (Z.abs_nonneg gx) Hx).
  pose proof (Z.mul_le_mono_nonneg _ _ _ _ (Z.abs_nonneg gy) Hy (Z.abs_nonneg gy) Hy).
  lia.
Qed.

(** C5, as the code has it. At every pixel [(i, j)] of the image and for
    every pair of gradient fields, [combineGradients] of either class
    stores an 8-bit value between 0 and 255.  Where the squared sum
    [gx^2 + gy^2] fits a 32-bit [int], the stored value is
    min(255, floor(sqrt(gx^2 + gy^2))).  The squared sum does fit for the
    fields that the gradient stage of either class produces from an 8-bit
    image under the constructor's scale and delta: their entries are at
    most 2040 in absolute value. *)
Theorem combineGradients_magnitude
    (self : AltSobel.t) (pself : OmpSobel.t) (sched : Schedule)
    (gradX gradY : list (list Z)) (i j : Z) :
  let gx := mat_at gradX i j in
  let gy := mat_at gradY i j in
  let m := Z.min 255 (Z.sqrt (gx * gx + gy * gy)) in
  let stored := mat_at (AltSobel.combineGradients self gradX gradY) i j in
  let pstored := mat_at (OmpSobel.combineGradients sched pself gradX gradY) i j in
  0 <= i < AltSobel.height self -> 0 <= j < AltSobel.width self ->
  0 <= i < OmpSobel.height pself -> 0 <= j < OmpSobel.width pself ->
  valid_schedule sched ->
  (0 <= stored <= 255 /\ 0 <= pstored <= 255)
  /\ (gx * gx + gy * gy < 2 ^ 31 -> stored = m /\ pstored = m /\ 0 <= m <= 255)
  /\ (forall grayImage,
        is_u8_image grayImage ->
        AltSobel.scale self = Double.of_int 1 -> AltSobel.delta self = Double.of_int 0 ->
        gradX = AltSobel.computeGradientX self grayImage ->
        gradY = AltSobel.computeGradientY self grayImage ->
        Z.abs gx <= 2040 /\ Z.abs gy <= 2040 /\ gx * gx + gy * gy < 2 ^ 31)
  /\ (forall grayImage,
        is_u8_image grayImage ->
        OmpSobel.scale pself = Double.of_int 1 -> OmpSobel.delta pself = Double.of_int 0 ->
        gradX = OmpSobel.computeGradientX sched pself grayImage ->
        gradY = OmpSobel.computeGradientY sched pself grayImage ->
        Z.abs gx <= 2040 /\ Z.abs gy <= 2040 /\ gx * gx + gy * gy < 2 ^ 31).
Proof.
  intros gx gy m stored pstored Hi Hj Hpi Hpj Hsched.
  subst stored pstored.
  rewrite alt_combineGradients_cells, omp_combineGradients_cells by assumption.
  rewrite !mat_at_tabulate by lia. fold gx gy.
  split; [split; apply combine_pixel_range|].
  split; [|split].
  - intros Hfit. rewrite combine_pixel_magnitude by assumption. fold m.
    pose proof (Z.sqrt_nonneg (gx * gx + gy * gy)).
    repeat split; lia.
  - intros grayImage Hu8 Hs Hd HX HY.
    assert (Z.abs gx <= 2040 /\ Z.abs gy <= 2040) as [Hgx Hgy].
    { subst gx gy gradX gradY.
      unfold AltSobel.computeGradientX, AltSobel.computeGradientY.
      rewrite !alt_computeGradient_cells, !mat_at_tabulate, Hs, Hd by lia.
      split.
      - apply (gradient_cell_bound KernelUtil.sobelX _ _ _ _ _ Hu8). reflexivity.
      - apply (gradient_cell_bound KernelUtil.sobelY _ _ _ _ _ Hu8). reflexivity. }
    repeat split; try assumption. apply squares_fit; assumption.
  - intros grayImage Hu8 Hs Hd HX HY.
    assert (Z.abs gx <= 2040 /\ Z.abs gy <= 2040) as [Hgx Hgy].
    { subst gx gy gradX gradY.
      unfold OmpSobel.computeGradientX, OmpSobel.computeGradientY.
      rewrite !omp_computeGradient_cells, !mat_at_tabulate, Hs, Hd by (assumption || lia).
      split.
      - apply (gradient_cell_bound KernelUtil.sobelX _ _ _ _ _ Hu8). reflexivity.
      - apply (gradient_cell_bound KernelUtil.sobelY _ _ _ _ _ Hu8). reflexivity. }
    repeat split; try assumption. apply squares_fit; assumption.
Qed.

Lemma combineGradients_magnitude_witness :
  let self := AltSobel.mk 3 (Double.of_int 1) (Double.of_int 0) 1 1 in
  let pself := OmpSobel.mk 3 (Double.of_int 1) (Double.of_int 0) 1 1 in
  let stored := mat_at (AltSobel.combineGradients self [[300]] [[-400]]) 0 0 in
  let pstored := mat_at (OmpSobel.combineGradients sequential pself [[300]] [[-400]]) 0 0 in
  (0 <= stored <= 255 /\ 0 <= pstored <= 255)
  /\ stored = 255 /\ pstored = 255
  /\ Z.min 255 (Z.sqrt (300 * 300 + -400 * -400)) = 255.
Proof.
  intros self pself stored pstored.
  assert (0 <= 0 < 1) as Hin by lia.
  destruct (combineGradients_magnitude self pself sequential [[300]] [[-400]] 0 0
              Hin Hin Hin Hin sequential_valid)
    as (Hrange & Hformula & _).
  split; [exact Hrange|].
  destruct Hformula as (Hs & Hp & _); [vm_compute; reflexivity|].
  split; [exact Hs|]. split; [exact Hp|]. reflexivity.
Defined.

(** ** How far the two pipelines agree *)

(** The luminance is a binary64 sum: on the gray pixel (1, 1, 1) it is
    0.9999999999999999, which truncates to 0, where the exact weights
    would give 1. *)
Lemma luminance_is_binary64 :
  luminance 1 1 1 = 0 /\ (299 * 1 + 587 * 1 + 114 * 1) / 1000 = 1.
Proof. split; reflexivity. Qed.

(** Given the same grayscale image, the OpenMP gradient and combination
    stages return what the sequential ones return, for every schedule. *)
Lemma omp_equals_sequential_after_grayscale
    (sched : Schedule) (p : OmpSobel.t) (grayImage : list (list Z)) :
  valid_schedule sched ->
  OmpSobel.combineGradients sched p
    (OmpSobel.computeGradientX sched p grayImage)
    (OmpSobel.computeGradientY sched p grayImage)
  = AltSobel.combineGradients (as_sequential p)
      (AltSobel.computeGradientX (as_sequential p) grayImage)
      (AltSobel.computeGradientY (as_sequential p) grayImage).
Proof.
  intros Hsched.
  unfold OmpSobel.computeGradientX, OmpSobel.computeGradientY,
    AltSobel.computeGradientX, AltSobel.computeGradientY.
  rewrite !(computeGradient_agree sched _ _ p (as_sequential p))
    by (assumption || reflexivity).
  apply combineGradients_agree; [assumption | reflexivity | reflexivity].
Qed.

(** On an image whose red and blue samples are equal at every pixel the
    two pipelines return the same edge map. *)
Lemma omp_equals_sequential_when_red_is_blue
    (sched : Schedule) (p : OmpSobel.t) (image : list (list (list Z))) :
  valid_schedule sched ->
  (forall i j, 0 <= i < OmpSobel.height p -> 0 <= j < OmpSobel.width p ->
               zlookup (mat_at image i j) 0 = zlookup (mat_at image i j) 2) ->
  OmpSobel.stages sched p image = AltSobel.stages (as_sequential p) image.
Proof.
  intros Hsched Hrb. unfold OmpSobel.stages, AltSobel.stages.
  rewrite omp_equals_sequential_after_grayscale by assumption.
  assert (OmpSobel.convertToGrayscale sched p (OmpSobel.convertToRGB sched p image)
          = AltSobel.convertToGrayscale (as_sequential p)
              (AltSobel.convertToRGB (as_sequential p) image)) as ->; [|reflexivity].
  rewrite omp_convertToGrayscale_cells, omp_convertToRGB_cells by assumption.
  rewrite alt_convertToGrayscale_cells, alt_convertToRGB_cells.
  cbn [as_sequential AltSobel.height AltSobel.width].
  apply mat_tabulate_ext. intros i j Hi Hj. cbv zeta.
  rewrite !mat_at_tabulate by assumption.
  unfold rgb_of_bgr.
  change (zlookup [zlookup (mat_at image i j) 2; zlookup (mat_at image i j) 1;
                   zlookup (mat_at image i j) 0] 2)
    with (zlookup (mat_at image i j) 0).
  change (zlookup [zlookup (mat_at image i j) 2; zlookup (mat_at image i j) 1;
                   zlookup (mat_at image i j) 0] 1)
    with (zlookup (mat_at image i j) 1).
  change (zlookup [zlookup (mat_at image i j) 2; zlookup (mat_at image i j) 1;
                   zlookup (mat_at image i j) 0] 0)
    with (zlookup (mat_at image i j) 2).
  rewrite (Hrb i j Hi Hj). reflexivity.
Qed.

(** The border is zero in the OpenMP class as well. *)
Lemma omp_border_cells_zero
    (sched : Schedule) (self : OmpSobel.t) (grayImage : list (list Z)) (i j : Z) :
  let gradX := OmpSobel.computeGradientX sched self grayImage in
  let gradY := OmpSobel.computeGradientY sched self grayImage in
  valid_schedule sched ->
  0 <= i < OmpSobel.height self ->
  0 <= j < OmpSobel.width self ->
  i = 0 \/ i = OmpSobel.height self - 1 \/ j = 0 \/ j = OmpSobel.width self - 1 ->
  mat_at gradX i j = 0 /\ mat_at gradY i j = 0
  /\ mat_at (OmpSobel.combineGradients sched self gradX gradY) i j = 0.
Proof.
  intros gradX gradY Hsched Hi Hj Hborder.
  assert (forall region kernel, kernel_size kernel ÷ 2 = 1 ->
            mat_at (OmpSobel.computeGradient sched region kernel self grayImage) i j = 0)
    as Hzero.
  { intros region kernel Hoff.
    rewrite omp_computeGradient_cells, mat_at_tabulate by (assumption || lia).
    unfold gradient_cell. rewrite Hoff.
    destruct (decide (1 <= i < OmpSobel.height self - 1
                      /\ 1 <= j < OmpSobel.width self - 1)); [lia|reflexivity]. }
  assert (mat_at gradX i j = 0) as HX by (apply Hzero; reflexivity).
  assert (mat_at gradY i j = 0) as HY by (apply Hzero; reflexivity).
  split; [exact HX|]. split; [exact HY|].
  rewrite omp_combineGradients_cells, mat_at_tabulate by (assumption || lia).
  rewrite HX, HY. apply combine_pixel_zero.
Qed.

(** On the red column the OpenMP pipeline returns 116 at the centre under
    every schedule. *)
Lemma parallel_differs_for_every_schedule (sched : Schedule) :
  valid_schedule sched ->
  fst (fst (OmpSobel.getEdges sched (OmpSobel.new 3) "red.png" "edges.png"
              (one_file "red.png" red_column)))
  = inr [[0; 0; 0]; [0; 116; 0]; [0; 0; 0]].
Proof.
  intros Hsched. unfold OmpSobel.getEdges.
  change (ImageUtils.getImage "red.png" (one_file "red.png" red_column))
    with (inr red_column : exception + list (list (list Z))).
  cbn [fst]. f_equal.
  rewrite (omp_stages_any_schedule sched sequential) by (assumption || apply sequential_valid).
  vm_compute. reflexivity.
Qed.

(** The constructor stores its argument, and [getEdges] leaves it
    unchanged. *)
Lemma new_stores_kernelSize (kernelSize : Z) :
  AltSobel.ksize (AltSobel.new kernelSize) = kernelSize
  /\ OmpSobel.ksize (OmpSobel.new kernelSize) = kernelSize.
Proof. split; reflexivity. Qed.

Lemma getEdges_keeps_ksize
    (self : AltSobel.t) (inputPath outputName : string) (w : ImageUtils.World) :
  AltSobel.ksize (snd (fst (AltSobel.getEdges self inputPath outputName w)))
  = AltSobel.ksize self.
Proof.
  unfold AltSobel.getEdges.
  destruct (ImageUtils.getImage inputPath w); reflexivity.
Qed.

(** * Further properties of the code *)

(** ** Shapes *)

Lemma mat_tabulate_dims {A : Type} (rows cols : Z) (f : Z -> Z -> A) :
  has_dims rows cols (mat_tabulate rows cols f).
Proof.
  split; [apply length_mat_tabulate|].
  unfold mat_tabulate. apply Forall_fmap, Forall_forall. intros i _. cbn.
  rewrite length_fmap. apply length_seqZ.
Qed.

Lemma mat_tabulate_rows_cols {A : Type} (rows cols : Z) (f : Z -> Z -> A) :
  0 < rows -> 0 <= cols ->
  mat_rows (mat_tabulate rows cols f) = rows
  /\ mat_cols (mat_tabulate rows cols f) = cols.
Proof.
  intros Hr Hc. unfold mat_rows. rewrite length_mat_tabulate.
  split; [lia|]. unfold mat_tabulate.
  rewrite (seqZ_cons 0 rows) by lia. cbn [fmap list_fmap mat_cols].
  rewrite length_fmap, length_seqZ. lia.
Qed.

(** A well-shaped array is the table of its own cells. *)
Lemma mat_tabulate_mat_at {A : Type} `{!Inhabited A} (rows cols : Z) (m : list (list A)) :
  has_dims rows cols m -> mat_tabulate rows cols (mat_at m) = m.
Proof.
  intros [Hlen Hrows]. apply list_eq. intros k.
  destruct (decide (Z.of_nat k < rows)) as [Hk | Hk].
  - rewrite lookup_mat_tabulate by assumption.
    destruct (m !! k) as [row|] eqn:Er;
      [|apply lookup_ge_None in Er; lia].
    f_equal. pose proof (proj1 (Forall_lookup _ _) Hrows _ _ Er) as Hrow.
    cbn in Hrow. apply list_eq. intros c. rewrite list_lookup_fmap.
    destruct (decide (Z.of_nat c < cols)) as [Hc | Hc].
    + rewrite lookup_seqZ_lt by assumption. cbn.
      destruct (row !! c) as [x|] eqn:Ex;
        [|apply lookup_ge_None in Ex; lia].
      f_equal. unfold mat_at, zlookup.
      destruct (decide (0 <= Z.of_nat k)); [|lia].
      destruct (decide (0 <= 0 + Z.of_nat c)); [|lia].
      rewrite Nat2Z.id. rewrite (list_lookup_total_correct _ _ _ Er).
      apply list_lookup_total_correct.
      replace (Z.to_nat (0 + Z.of_nat c)) with c by lia. exact Ex.
    + rewrite lookup_seqZ_ge by lia. symmetry. apply lookup_ge_None. lia.
  - rewrite (lookup_ge_None_2 (mat_tabulate _ _ _))
      by (rewrite length_mat_tabulate; lia).
    symmetry. apply lookup_ge_None. lia.
Qed.

Lemma alt_stages_cells (self : AltSobel.t) (image : list (list (list Z))) :
  exists f : Z -> Z -> Z,
    AltSobel.stages self image
    = mat_tabulate (AltSobel.height self) (AltSobel.width self) f
    /\ forall i j, 0 <= f i j <= 255.
Proof.
  unfold AltSobel.stages. rewrite alt_combineGradients_cells.
  eexists. split; [reflexivity|]. intros i j. apply combine_pixel_range.
Qed.

Lemma omp_stages_cells
    (sched : Schedule) (self : OmpSobel.t) (image : list (list (list Z))) :
  valid_schedule sched ->
  exists f : Z -> Z -> Z,
    OmpSobel.stages sched self image
    = mat_tabulate (OmpSobel.height self) (OmpSobel.width self) f
    /\ forall i j, 0 <= f i j <= 255.
Proof.
  intros Hsched. unfold OmpSobel.stages.
  rewrite omp_combineGradients_cells by assumption.
  eexists. split; [reflexivity|]. intros i j. apply combine_pixel_range.
Qed.

Lemma mat_empty_false {A : Type} (m : list (list A)) :
  mat_empty m = false -> 0 < mat_rows m /\ 0 < mat_cols m.
Proof.
  unfold mat_empty. intros H. apply orb_false_elim in H as [Hr Hc].
  apply Z.eqb_neq in Hr, Hc. unfold mat_rows in *.
  split; [lia|]. destruct m as [|row m]; cbn in *; lia.
Qed.

Lemma tabulate_edge_map {A : Type} (image : list (list A)) (f : Z -> Z -> Z) :
  mat_empty image = false -> (forall i j, 0 <= f i j <= 255) ->
  edge_map_of image (mat_tabulate (mat_rows image) (mat_cols image) f).
Proof.
  intros Hne Hf. destruct (mat_empty_false image Hne) as [Hr Hc].
  destruct (mat_tabulate_rows_cols (mat_rows image) (mat_cols image) f Hr ltac:(lia))
    as [Er Ec].
  split; [|repeat split; try assumption; try apply mat_tabulate_dims].
  - unfold mat_empty. rewrite Er, Ec. exact Hne.
  - apply mat_tabulate_u8. intros i j. specialize (Hf i j). lia.
Qed.

(** X1. For every decodable input image, whatever the object's fields and
    whatever the OpenMP schedule, [getEdges] of both classes returns an
    edge map that is not empty, has exactly the rows and columns of the
    input image, has every row of full length, and holds only 8-bit
    samples. *)
Theorem getEdges_shape
    (self : AltSobel.t) (pself : OmpSobel.t) (sched : Schedule)
    (inputPath outputName : string) (w : ImageUtils.World) :
  let image := ImageUtils.decode w inputPath in
  mat_empty image = false -> valid_schedule sched ->
  exists edges pedges,
    fst (fst (AltSobel.getEdges self inputPath outputName w)) = inr edges
    /\ fst (fst (OmpSobel.getEdges sched pself inputPath outputName w)) = inr pedges
    /\ edge_map_of image edges /\ edge_map_of image pedges.
Proof.
  intros image Hne Hsched.
  unfold AltSobel.getEdges, OmpSobel.getEdges, ImageUtils.getImage.
  fold image. rewrite Hne. cbn [fst].
  destruct (alt_stages_cells
              (AltSobel.mk (AltSobel.ksize self) (AltSobel.scale self)
                 (AltSobel.delta self) (mat_rows image) (mat_cols image)) image)
    as (f & -> & Hf).
  destruct (omp_stages_cells sched
              (OmpSobel.mk (OmpSobel.ksize pself) (OmpSobel.scale pself)
                 (OmpSobel.delta pself) (mat_rows image) (mat_cols image)) image Hsched)
    as (g & -> & Hg).
  eexists _, _. split; [reflexivity|]. split; [reflexivity|].
  cbn [AltSobel.height AltSobel.width OmpSobel.height OmpSobel.width].
  split; apply tabulate_edge_map; assumption.
Qed.

Lemma getEdges_shape_witness :
  exists edges pedges,
    fst (fst (AltSobel.getEdges (AltSobel.new 3) "red.png" "edges.png"
                (one_file "red.png" red_column))) = inr edges
    /\ fst (fst (OmpSobel.getEdges backwards (OmpSobel.new 3) "red.png" "edges.png"
                   (one_file "red.png" red_column))) = inr pedges
    /\ edge_map_of (ImageUtils.decode (one_file "red.png" red_column) "red.png") edges
    /\ edge_map_of (ImageUtils.decode (one_file "red.png" red_column) "red.png") pedges.
Proof.
  apply (getEdges_shape (AltSobel.new 3) (OmpSobel.new 3) backwards
           "red.png" "edges.png" (one_file "red.png" red_column)).
  - reflexivity.
  - apply backwards_valid.
Defined.


(** ** Images without an interior *)

Lemma gradient_cell_no_interior
    (kernel : list (list Z)) (scale delta : float) (rows cols : Z)
    (grayImage : list (list Z)) (i j : Z) :
  0 <= kernel_size kernel ÷ 2 ->
  rows <= 2 * (kernel_size kernel ÷ 2) \/ cols <= 2 * (kernel_size kernel ÷ 2) ->
  gradient_cell kernel scale delta rows cols grayImage i j = 0.
Proof.
  intros Hoff Hsmall. unfold gradient_cell.
  destruct (decide (kernel_size kernel ÷ 2 <= i < rows - kernel_size kernel ÷ 2
                    /\ kernel_size kernel ÷ 2 <= j < cols - kernel_size kernel ÷ 2));
    [lia | reflexivity].
Qed.

Lemma alt_stages_no_interior (self : AltSobel.t) (image : list (list (list Z))) :
  AltSobel.height self < 3 \/ AltSobel.width self < 3 ->
  AltSobel.stages self image
  = mat_fill (AltSobel.height self) (AltSobel.width self) 0.
Proof.
  intros Hsmall.
  unfold AltSobel.stages, AltSobel.computeGradientX, AltSobel.computeGradientY.
  rewrite alt_combineGradients_cells, !alt_computeGradient_cells.
  rewrite <- (mat_tabulate_const _ _ 0). apply mat_tabulate_ext. intros i j Hi Hj.
  rewrite !mat_at_tabulate by assumption.
  rewrite !gradient_cell_no_interior
    by (change (kernel_size _ ÷ 2) with 1; lia).
  apply combine_pixel_zero.
Qed.

Lemma omp_stages_no_interior
    (sched : Schedule) (self : OmpSobel.t) (image : list (list (list Z))) :
  valid_schedule sched ->
  OmpSobel.height self < 3 \/ OmpSobel.width self < 3 ->
  OmpSobel.stages sched self image
  = mat_fill (OmpSobel.height self) (OmpSobel.width self) 0.
Proof.
  intros Hsched Hsmall.
  unfold OmpSobel.stages, OmpSobel.computeGradientX, OmpSobel.computeGradientY.
  rewrite omp_combineGradients_cells, !omp_computeGradient_cells by assumption.
  rewrite <- (mat_tabulate_const _ _ 0). apply mat_tabulate_ext. intros i j Hi Hj.
  rewrite !mat_at_tabulate by assumption.
  rewrite !gradient_cell_no_interior
    by (change (kernel_size _ ÷ 2) with 1; lia).
  apply combine_pixel_zero.
Qed.

(** X2. An image with fewer than three rows or fewer than three
    columns has no interior pixel: [getEdges] of both classes returns the
    all-zero map of the image's size, for every scale and delta. *)
Theorem thin_image_no_edges
    (self : AltSobel.t) (pself : OmpSobel.t) (sched : Schedule)
    (inputPath outputName : string) (w : ImageUtils.World) :
  let image := ImageUtils.decode w inputPath in
  mat_empty image = false -> valid_schedule sched ->
  mat_rows image < 3 \/ mat_cols image < 3 ->
  fst (fst (AltSobel.getEdges self inputPath outputName w))
  = inr (mat_fill (mat_rows image) (mat_cols image) 0)
  /\ fst (fst (OmpSobel.getEdges sched pself inputPath outputName w))
     = inr (mat_fill (mat_rows image) (mat_cols image) 0).
Proof.
  intros image Hne Hsched Hsmall.
  unfold AltSobel.getEdges, OmpSobel.getEdges, ImageUtils.getImage.
  fold image. rewrite Hne. cbn [fst]. split; f_equal.
  - apply (alt_stages_no_interior (AltSobel.mk _ _ _ _ _)). exact Hsmall.
  - apply (omp_stages_no_interior sched (OmpSobel.mk _ _ _ _ _)); assumption.
Qed.

Lemma thin_image_no_edges_witness :
  let w := one_file "strip.png" [[[9; 200; 31]; [250; 0; 7]; [1; 2; 3]; [90; 80; 70]];
                                 [[0; 0; 0]; [255; 255; 255]; [0; 0; 0]; [255; 255; 255]]] in
  fst (fst (AltSobel.getEdges (AltSobel.new 3) "strip.png" "edges.png" w))
  = inr [[0; 0; 0; 0]; [0; 0; 0; 0]]
  /\ fst (fst (OmpSobel.getEdges backwards (OmpSobel.new 3) "strip.png" "edges.png" w))
     = inr [[0; 0; 0; 0]; [0; 0; 0; 0]].
Proof.
  apply (thin_image_no_edges (AltSobel.new 3) (OmpSobel.new 3) backwards
           "strip.png" "edges.png"
           (one_file "strip.png"
              [[[9; 200; 31]; [250; 0; 7]; [1; 2; 3]; [90; 80; 70]];
               [[0; 0; 0]; [255; 255; 255]; [0; 0; 0]; [255; 255; 255]]]));
    [reflexivity | apply backwards_valid | left; vm_compute; reflexivity].
Defined.

(** ** The object's fields *)

(** X3. An object that has already run [getEdges] can be used again:
    whatever the first call read and whether or not it threw, a second
    call on the used object returns the same result and leaves the same
    file system as the same call on the object before its first use.
    [height] and [width] left by the first call are overwritten before
    they are read, and nothing else is changed. *)
Theorem getEdges_object_reusable
    (self : AltSobel.t) (pself : OmpSobel.t) (sched : Schedule)
    (inputPath1 outputName1 inputPath2 outputName2 : string)
    (w1 w2 : ImageUtils.World) :
  let used := snd (fst (AltSobel.getEdges self inputPath1 outputName1 w1)) in
  let pused := snd (fst (OmpSobel.getEdges sched pself inputPath1 outputName1 w1)) in
  (fst (fst (AltSobel.getEdges used inputPath2 outputName2 w2))
   = fst (fst (AltSobel.getEdges self inputPath2 outputName2 w2))
   /\ snd (AltSobel.getEdges used inputPath2 outputName2 w2)
      = snd (AltSobel.getEdges self inputPath2 outputName2 w2))
  /\ (fst (fst (OmpSobel.getEdges sched pused inputPath2 outputName2 w2))
      = fst (fst (OmpSobel.getEdges sched pself inputPath2 outputName2 w2))
      /\ snd (OmpSobel.getEdges sched pused inputPath2 outputName2 w2)
         = snd (OmpSobel.getEdges sched pself inputPath2 outputName2 w2)).
Proof.
  intros used pused. subst used pused.
  unfold AltSobel.getEdges, OmpSobel.getEdges.
  destruct (ImageUtils.getImage inputPath1 w1) as [e1|image1];
    destruct (ImageUtils.getImage inputPath2 w2) as [e2|image2];
    repeat split; reflexivity.
Qed.


(** ** Channel order *)

Lemma rgb_of_bgr_involutive (px : list Z) : is_pixel px -> rgb_of_bgr (rgb_of_bgr px) = px.
Proof.
  unfold is_pixel. intros Hlen.
  destruct px as [|a [|b [|c [|d px]]]]; try discriminate. reflexivity.
Qed.

Lemma mat_at_pixel (rows cols : Z) (image : list (list (list Z))) (i j : Z) :
  has_dims rows cols image -> Forall (Forall is_pixel) image ->
  0 <= i < rows -> 0 <= j < cols -> is_pixel (mat_at image i j).
Proof.
  intros [Hlen Hrows] Hpx Hi Hj. unfold mat_at, zlookup.
  destruct (decide (0 <= i)); [|lia]. destruct (decide (0 <= j)); [|lia].
  destruct (image !! Z.to_nat i) as [row|] eqn:Er;
    [|apply lookup_ge_None in Er; lia].
  rewrite (list_lookup_total_correct _ _ _ Er).
  pose proof (proj1 (Forall_lookup _ _) Hrows _ _ Er) as Hrow. cbn in Hrow.
  destruct (row !! Z.to_nat j) as [px|] eqn:Ex;
    [|apply lookup_ge_None in Ex; lia].
  rewrite (list_lookup_total_correct _ _ _ Ex).
  exact (proj1 (Forall_lookup _ _) (proj1 (Forall_lookup _ _) Hpx _ _ Er) _ _ Ex).
Qed.

(** X4. [convertToRGB] loses nothing, on an image of the object's size
    whose pixels have three samples.  In the OpenMP class, where it maps
    a [Mat] to a [Mat], applying it twice gives the image back, under
    every schedule.  In the sequential class, where it maps a [Mat] to
    nested vectors, every pixel of the result read back to front is the
    pixel of the input. *)
Theorem convertToRGB_invertible
    (self : AltSobel.t) (pself : OmpSobel.t) (sched : Schedule)
    (image : list (list (list Z))) :
  has_dims (AltSobel.height self) (AltSobel.width self) image ->
  has_dims (OmpSobel.height pself) (OmpSobel.width pself) image ->
  Forall (Forall is_pixel) image ->
  valid_schedule sched ->
  OmpSobel.convertToRGB sched pself (OmpSobel.convertToRGB sched pself image) = image
  /\ (forall i j, 0 <= i < AltSobel.height self -> 0 <= j < AltSobel.width self ->
                  let pixel := mat_at (AltSobel.convertToRGB self image) i j in
                  [zlookup pixel 2; zlookup pixel 1; zlookup pixel 0]
                  = mat_at image i j).
Proof.
  intros Hdims Hpdims Hpx Hsched. split.
  - rewrite !omp_convertToRGB_cells by assumption.
    etransitivity; [|exact (mat_tabulate_mat_at _ _ image Hpdims)].
    apply mat_tabulate_ext. intros i j Hi Hj.
    rewrite mat_at_tabulate by assumption.
    apply rgb_of_bgr_involutive. apply (mat_at_pixel _ _ image i j Hpdims); assumption.
  - intros i j Hi Hj pixel. subst pixel.
    rewrite alt_convertToRGB_cells, mat_at_tabulate by assumption.
    apply (rgb_of_bgr_involutive (mat_at image i j)).
    apply (mat_at_pixel _ _ image i j Hdims); assumption.
Qed.

Lemma convertToRGB_invertible_witness :
  let image := [[[1; 2; 3]; [4; 5; 6]]; [[7; 8; 9]; [10; 11; 12]]] in
  let self := AltSobel.mk 3 (Double.of_int 1) (Double.of_int 0) 2 2 in
  let pself := OmpSobel.mk 3 (Double.of_int 1) (Double.of_int 0) 2 2 in
  OmpSobel.convertToRGB backwards pself (OmpSobel.convertToRGB backwards pself image)
  = image
  /\ (forall i j, 0 <= i < 2 -> 0 <= j < 2 ->
                  let pixel := mat_at (AltSobel.convertToRGB self image) i j in
                  [zlookup pixel 2; zlookup pixel 1; zlookup pixel 0]
                  = mat_at image i j).
Proof.
  apply (convertToRGB_invertible
           (AltSobel.mk 3 (Double.of_int 1) (Double.of_int 0) 2 2)
           (OmpSobel.mk 3 (Double.of_int 1) (Double.of_int 0) 2 2)
           backwards [[[1; 2; 3]; [4; 5; 6]]; [[7; 8; 9]; [10; 11; 12]]]).
  - split; [reflexivity | repeat constructor].
  - split; [reflexivity | repeat constructor].
  - repeat constructor.
  - apply backwards_valid.
Defined.

(** ** Gray levels shifted or negated *)

Lemma Zsum_fmap_add {B : Type} (f g : B -> Z) (l : list B) :
  Zsum ((fun x => f x + g x) <$> l) = Zsum (f <$> l) + Zsum (g <$> l).
Proof.
  induction l as [|x l IH]; [reflexivity|].
  rewrite !fmap_cons, !Zsum_cons, IH. ring.
Qed.

(** The window of an interior pixel lies inside the image. *)
Lemma window_inside (k rows cols i j ki kj : Z) :
  0 <= k ->
  k ÷ 2 <= i < rows - k ÷ 2 -> k ÷ 2 <= j < cols - k ÷ 2 ->
  0 <= ki < k -> 0 <= kj < k ->
  0 <= i + ki - k ÷ 2 < rows /\ 0 <= j + kj - k ÷ 2 < cols.
Proof.
  intros Hk Hi Hj Hki Hkj.
  pose proof (Z.quot_rem' k 2). pose proof (Z.rem_bound_pos k 2 Hk ltac:(lia)). lia.
Qed.

(** Replacing every sample [v] by [a * v + c] turns the dot product [S]
    into [a * S + c * (sum of the coefficients)]. *)
Lemma dot_product_affine_samples
    (kernel grayImage grayImage' : list (list Z)) (rows cols a c i j : Z) :
  (forall r s, 0 <= r < rows -> 0 <= s < cols ->
               mat_at grayImage' r s = a * mat_at grayImage r s + c) ->
  0 <= kernel_size kernel ->
  kernel_size kernel ÷ 2 <= i < rows - kernel_size kernel ÷ 2 ->
  kernel_size kernel ÷ 2 <= j < cols - kernel_size kernel ÷ 2 ->
  dot_product kernel grayImage' i j
  = a * dot_product kernel grayImage i j + kernel_total kernel * c.
Proof.
  intros Hsamples Hk Hi Hj. unfold dot_product, kernel_total.
  set (k := kernel_size kernel) in *. set (offset := k ÷ 2) in *.
  rewrite (Z.mul_comm a (Zsum _)), <- !Zsum_fmap_scale, <- Zsum_fmap_add.
  apply Zsum_fmap_ext. intros ki Hki. apply elem_of_seqZ in Hki.
  rewrite <- !Zsum_fmap_scale, <- Zsum_fmap_add.
  apply Zsum_fmap_ext. intros kj Hkj. apply elem_of_seqZ in Hkj.
  destruct (window_inside k rows cols i j ki kj Hk Hi Hj ltac:(lia) ltac:(lia)).
  rewrite Hsamples by assumption. ring.
Qed.

Lemma gradient_cell_shifted
    (kernel : list (list Z)) (scale delta : float) (rows cols c : Z)
    (grayImage grayImage' : list (list Z)) (i j : Z) :
  (forall r s, 0 <= r < rows -> 0 <= s < cols ->
               mat_at grayImage' r s = mat_at grayImage r s + c) ->
  0 <= kernel_size kernel -> kernel_total kernel = 0 ->
  gradient_cell kernel scale delta rows cols grayImage' i j
  = gradient_cell kernel scale delta rows cols grayImage i j.
Proof.
  intros Hsamples Hk Htotal. unfold gradient_cell.
  destruct (decide (kernel_size kernel ÷ 2 <= i < rows - kernel_size kernel ÷ 2
                    /\ kernel_size kernel ÷ 2 <= j < cols - kernel_size kernel ÷ 2))
    as [[Hi Hj]|]; [|reflexivity].
  rewrite !accumulate_dot_product.
  rewrite (dot_product_affine_samples kernel grayImage grayImage' rows cols 1 c i j)
    by (try assumption; intros r s Hr Hs; rewrite Hsamples by assumption; ring).
  rewrite Htotal. do 2 f_equal. ring.
Qed.

(** X5. Adding one constant to every gray level leaves both gradient
    fields unchanged, for every scale and delta, in both classes: the
    coefficients of each Sobel kernel sum to 0.  (The gray levels need not
    stay within 8 bits.) *)
Theorem gradients_ignore_brightness
    (self : AltSobel.t) (pself : OmpSobel.t) (sched : Schedule)
    (grayImage : list (list Z)) (c : Z) :
  valid_schedule sched ->
  let shifted := brighter (AltSobel.height self) (AltSobel.width self) c grayImage in
  let pshifted := brighter (OmpSobel.height pself) (OmpSobel.width pself) c grayImage in
  (AltSobel.computeGradientX self shifted = AltSobel.computeGradientX self grayImage
   /\ AltSobel.computeGradientY self shifted = AltSobel.computeGradientY self grayImage)
  /\ (OmpSobel.computeGradientX sched pself pshifted
      = OmpSobel.computeGradientX sched pself grayImage
      /\ OmpSobel.computeGradientY sched pself pshifted
         = OmpSobel.computeGradientY sched pself grayImage).
Proof.
  intros Hsched shifted pshifted. subst shifted pshifted.
  unfold AltSobel.computeGradientX, AltSobel.computeGradientY,
    OmpSobel.computeGradientX, OmpSobel.computeGradientY.
  rewrite !alt_computeGradient_cells, !omp_computeGradient_cells by assumption.
  repeat split; apply mat_tabulate_ext; intros i j _ _;
    (apply (gradient_cell_shifted _ _ _ _ _ c);
     [ intros r s Hr Hs; unfold brighter; rewrite mat_at_tabulate by assumption;
       reflexivity
     | vm_compute; discriminate
     | reflexivity ]).
Qed.

Lemma gradients_ignore_brightness_witness :
  let self := AltSobel.mk 3 (Double.of_int 1) (Double.of_int 0) 3 3 in
  let pself := OmpSobel.mk 3 (Double.of_int 1) (Double.of_int 0) 3 3 in
  let grayImage := [[1; 2; 3]; [4; 5; 6]; [7; 8; 90]] in
  let shifted := brighter 3 3 10 grayImage in
  (AltSobel.computeGradientX self shifted = AltSobel.computeGradientX self grayImage
   /\ AltSobel.computeGradientY self shifted = AltSobel.computeGradientY self grayImage)
  /\ (OmpSobel.computeGradientX backwards pself shifted
      = OmpSobel.computeGradientX backwards pself grayImage
      /\ OmpSobel.computeGradientY backwards pself shifted
         = OmpSobel.computeGradientY backwards pself grayImage).
Proof.
  apply (gradients_ignore_brightness
           (AltSobel.mk 3 (Double.of_int 1) (Double.of_int 0) 3 3)
           (OmpSobel.mk 3 (Double.of_int 1) (Double.of_int 0) 3 3)
           backwards [[1; 2; 3]; [4; 5; 6]; [7; 8; 90]] 10).
  apply backwards_valid.
Defined.

(** ** The Sobel sums written out *)

Lemma dot_product_sobelX (grayImage : list (list Z)) (i j : Z) :
  dot_product KernelUtil.sobelX grayImage i j
  = (mat_at grayImage (i - 1) (j + 1) - mat_at grayImage (i - 1) (j - 1))
    + 2 * (mat_at grayImage i (j + 1) - mat_at grayImage i (j - 1))
    + (mat_at grayImage (i + 1) (j + 1) - mat_at grayImage (i + 1) (j - 1)).
Proof.
  unfold dot_product.
  change (kernel_size KernelUtil.sobelX) with 3. change (3 ÷ 2) with 1.
  change (seqZ 0 3) with [0; 1; 2].
  unfold Zsum. cbn [fmap list_fmap foldr].
  replace (i + 0 - 1) with (i - 1) by lia. replace (i + 1 - 1) with i by lia.
  replace (i + 2 - 1) with (i + 1) by lia.
  replace (j + 0 - 1) with (j - 1) by lia. replace (j + 1 - 1) with j by lia.
  replace (j + 2 - 1) with (j + 1) by lia.
  change (mat_at KernelUtil.sobelX 0 0) with (-1).
  change (mat_at KernelUtil.sobelX 0 1) with 0.
  change (mat_at KernelUtil.sobelX 0 2) with 1.
  change (mat_at KernelUtil.sobelX 1 0) with (-2).
  change (mat_at KernelUtil.sobelX 1 1) with 0.
  change (mat_at KernelUtil.sobelX 1 2) with 2.
  change (mat_at KernelUtil.sobelX 2 0) with (-1).
  change (mat_at KernelUtil.sobelX 2 1) with 0.
  change (mat_at KernelUtil.sobelX 2 2) with 1.
  ring.
Qed.

Lemma dot_product_sobelY (grayImage : list (list Z)) (i j : Z) :
  dot_product KernelUtil.sobelY grayImage i j
  = (mat_at grayImage (i + 1) (j - 1) - mat_at grayImage (i - 1) (j - 1))
    + 2 * (mat_at grayImage (i + 1) j - mat_at grayImage (i - 1) j)
    + (mat_at grayImage (i + 1) (j + 1) - mat_at grayImage (i - 1) (j + 1)).
Proof.
  unfold dot_product.
  change (kernel_size KernelUtil.sobelY) with 3. change (3 ÷ 2) with 1.
  change (seqZ 0 3) with [0; 1; 2].
  unfold Zsum. cbn [fmap list_fmap foldr].
  replace (i + 0 - 1) with (i - 1) by lia. replace (i + 1 - 1) with i by lia.
  replace (i + 2 - 1) with (i + 1) by lia.
  replace (j + 0 - 1) with (j - 1) by lia. replace (j + 1 - 1) with j by lia.
  replace (j + 2 - 1) with (j + 1) by lia.
  change (mat_at KernelUtil.sobelY 0 0) with (-1).
  change (mat_at KernelUtil.sobelY 0 1) with (-2).
  change (mat_at KernelUtil.sobelY 0 2) with (-1).
  change (mat_at KernelUtil.sobelY 1 0) with 0.
  change (mat_at KernelUtil.sobelY 1 1) with 0.
  change (mat_at KernelUtil.sobelY 1 2) with 0.
  change (mat_at KernelUtil.sobelY 2 0) with 1.
  change (mat_at KernelUtil.sobelY 2 1) with 2.
  change (mat_at KernelUtil.sobelY 2 2) with 1.
  ring.
Qed.

(** On 8-bit samples a Sobel sum lies between -1020 and 1020. *)
Lemma sobel_sum_bound (grayImage : list (list Z)) (i j : Z) :
  is_u8_image grayImage ->
  Z.abs (dot_product KernelUtil.sobelX grayImage i j) <= 1020
  /\ Z.abs (dot_product KernelUtil.sobelY grayImage i j) <= 1020.
Proof.
  intros Hu8. rewrite dot_product_sobelX, dot_product_sobelY.
  pose proof (mat_at_u8 grayImage (i - 1) (j - 1) Hu8).
  pose proof (mat_at_u8 grayImage (i - 1) j Hu8).
  pose proof (mat_at_u8 grayImage (i - 1) (j + 1) Hu8).
  pose proof (mat_at_u8 grayImage i (j - 1) Hu8).
  pose proof (mat_at_u8 grayImage i (j + 1) Hu8).
  pose proof (mat_at_u8 grayImage (i + 1) (j - 1) Hu8).
  pose proof (mat_at_u8 grayImage (i + 1) j Hu8).
  pose proof (mat_at_u8 grayImage (i + 1) (j + 1) Hu8).
  lia.
Qed.

Lemma gradient_cell_sobel (kernel : list (list Z)) (rows cols : Z)
    (grayImage : list (list Z)) (i j : Z) :
  kernel_size kernel = 3 ->
  Z.abs (dot_product kernel grayImage i j) <= 1020 ->
  gradient_cell kernel (Double.of_int 1) (Double.of_int 0) rows cols grayImage i j
  = sobel_cell kernel rows cols grayImage i j.
Proof.
  intros Hk Hb. unfold gradient_cell, sobel_cell. rewrite Hk. change (3 ÷ 2) with 1.
  destruct (decide (1 <= i < rows - 1 /\ 1 <= j < cols - 1)); [|reflexivity].
  rewrite accumulate_dot_product, wrap32_small by (unfold CInt.int_range; lia).
  apply affine_default. unfold CInt.int_range. lia.
Qed.

Lemma sobel_cell_bound (rows cols : Z) (grayImage : list (list Z)) (i j : Z) :
  is_u8_image grayImage ->
  Z.abs (sobel_cell KernelUtil.sobelX rows cols grayImage i j) <= 1020
  /\ Z.abs (sobel_cell KernelUtil.sobelY rows cols grayImage i j) <= 1020.
Proof.
  intros Hu8. unfold sobel_cell.
  destruct (sobel_sum_bound grayImage i j Hu8).
  destruct (decide (1 <= i < rows - 1 /\ 1 <= j < cols - 1)); lia.
Qed.

Lemma square_bound (g : Z) : Z.abs g <= 1020 -> 0 <= g * g <= 1040400.
Proof. intros Hg. nia. Qed.

Lemma alt_edges_cells (self : AltSobel.t) (grayImage : list (list Z)) :
  AltSobel.scale self = Double.of_int 1 -> AltSobel.delta self = Double.of_int 0 ->
  is_u8_image grayImage ->
  AltSobel.combineGradients self
    (AltSobel.computeGradientX self grayImage)
    (AltSobel.computeGradientY self grayImage)
  = mat_tabulate (AltSobel.height self) (AltSobel.width self)
      (edge_cell (AltSobel.height self) (AltSobel.width self) grayImage).
Proof.
  intros Hs Hd Hu8. unfold AltSobel.computeGradientX, AltSobel.computeGradientY.
  rewrite alt_combineGradients_cells, !alt_computeGradient_cells, Hs, Hd.
  apply mat_tabulate_ext. intros i j Hi Hj. rewrite !mat_at_tabulate by assumption.
  destruct (sobel_sum_bound grayImage i j Hu8) as [HbX HbY].
  rewrite !gradient_cell_sobel by (reflexivity || assumption).
  destruct (sobel_cell_bound (AltSobel.height self) (AltSobel.width self)
              grayImage i j Hu8) as [HX HY].
  apply square_bound in HX, HY.
  unfold edge_cell. cbv zeta. apply combine_pixel_magnitude. lia.
Qed.

Lemma omp_edges_cells (sched : Schedule) (p : OmpSobel.t) (grayImage : list (list Z)) :
  valid_schedule sched ->
  OmpSobel.scale p = Double.of_int 1 -> OmpSobel.delta p = Double.of_int 0 ->
  is_u8_image grayImage ->
  OmpSobel.combineGradients sched p
    (OmpSobel.computeGradientX sched p grayImage)
    (OmpSobel.computeGradientY sched p grayImage)
  = mat_tabulate (OmpSobel.height p) (OmpSobel.width p)
      (edge_cell (OmpSobel.height p) (OmpSobel.width p) grayImage).
Proof.
  intros Hsched Hs Hd Hu8.
  rewrite omp_equals_sequential_after_grayscale by assumption.
  exact (alt_edges_cells (as_sequential p) grayImage Hs Hd Hu8).
Qed.

Lemma negative_u8 (rows cols : Z) (m : list (list Z)) :
  is_u8_image m -> is_u8_image (negative rows cols m).
Proof.
  intros Hu8. apply mat_tabulate_u8. intros i j.
  pose proof (mat_at_u8 m i j Hu8). lia.
Qed.

Lemma mirror_u8 (rows cols : Z) (m : list (list Z)) :
  is_u8_image m -> is_u8_image (mirror rows cols m).
Proof. intros Hu8. apply mat_tabulate_u8. intros i j. apply mat_at_u8, Hu8. Qed.

Lemma transpose_u8 (rows cols : Z) (m : list (list Z)) :
  is_u8_image m -> is_u8_image (transpose rows cols m).
Proof. intros Hu8. apply mat_tabulate_u8. intros i j. apply mat_at_u8, Hu8. Qed.

Lemma sobel_cell_negative (kernel : list (list Z)) (rows cols : Z)
    (grayImage : list (list Z)) (i j : Z) :
  kernel_size kernel = 3 -> kernel_total kernel = 0 ->
  sobel_cell kernel rows cols (negative rows cols grayImage) i j
  = - sobel_cell kernel rows cols grayImage i j.
Proof.
  intros Hk Htotal. unfold sobel_cell.
  destruct (decide (1 <= i < rows - 1 /\ 1 <= j < cols - 1)) as [[Hi Hj]|]; [|reflexivity].
  rewrite (dot_product_affine_samples kernel grayImage _ rows cols (-1) 255 i j).
  - rewrite Htotal. ring.
  - intros r s Hr Hs. unfold negative. rewrite mat_at_tabulate by assumption. ring.
  - rewrite Hk. lia.
  - rewrite Hk. change (3 ÷ 2) with 1. lia.
  - rewrite Hk. change (3 ÷ 2) with 1. lia.
Qed.

Lemma edge_cell_negative (rows cols : Z) (grayImage : list (list Z)) (i j : Z) :
  edge_cell rows cols (negative rows cols grayImage) i j
  = edge_cell rows cols grayImage i j.
Proof.
  unfold edge_cell. cbv zeta.
  rewrite !sobel_cell_negative by reflexivity.
  rewrite !Z.mul_opp_opp. reflexivity.
Qed.

Lemma sobel_cell_mirror (rows cols : Z) (grayImage : list (list Z)) (i j : Z) :
  0 <= i < rows -> 0 <= j < cols ->
  sobel_cell KernelUtil.sobelX rows cols (mirror rows cols grayImage) i j
  = - sobel_cell KernelUtil.sobelX rows cols grayImage i (cols - 1 - j)
  /\ sobel_cell KernelUtil.sobelY rows cols (mirror rows cols grayImage) i j
     = sobel_cell KernelUtil.sobelY rows cols grayImage i (cols - 1 - j).
Proof.
  intros Hi Hj. unfold sobel_cell.
  destruct (decide (1 <= i < rows - 1 /\ 1 <= j < cols - 1)) as [[Hi' Hj']|Hout];
    destruct (decide (1 <= i < rows - 1 /\ 1 <= cols - 1 - j < cols - 1)); try lia;
    try (split; reflexivity).
  rewrite !dot_product_sobelX, !dot_product_sobelY. unfold mirror.
  rewrite !mat_at_tabulate by lia.
  replace (cols - 1 - (j + 1)) with (cols - 1 - j - 1) by lia.
  replace (cols - 1 - (j - 1)) with (cols - 1 - j + 1) by lia.
  split; ring.
Qed.

Lemma edge_cell_mirror (rows cols : Z) (grayImage : list (list Z)) (i j : Z) :
  0 <= i < rows -> 0 <= j < cols ->
  edge_cell rows cols (mirror rows cols grayImage) i j
  = edge_cell rows cols grayImage i (cols - 1 - j).
Proof.
  intros Hi Hj. unfold edge_cell. cbv zeta.
  destruct (sobel_cell_mirror rows cols grayImage i j Hi Hj) as [-> ->].
  rewrite Z.mul_opp_opp. reflexivity.
Qed.

Lemma sobel_cell_transpose (rows cols : Z) (grayImage : list (list Z)) (i j : Z) :
  0 <= i < cols -> 0 <= j < rows ->
  sobel_cell KernelUtil.sobelX cols rows (transpose rows cols grayImage) i j
  = sobel_cell KernelUtil.sobelY rows cols grayImage j i
  /\ sobel_cell KernelUtil.sobelY cols rows (transpose rows cols grayImage) i j
     = sobel_cell KernelUtil.sobelX rows cols grayImage j i.
Proof.
  intros Hi Hj. unfold sobel_cell.
  destruct (decide (1 <= i < cols - 1 /\ 1 <= j < rows - 1)) as [[Hi' Hj']|Hout];
    destruct (decide (1 <= j < rows - 1 /\ 1 <= i < cols - 1)); try lia;
    try (split; reflexivity).
  rewrite !dot_product_sobelX, !dot_product_sobelY. unfold transpose.
  rewrite !mat_at_tabulate by lia.
  split; ring.
Qed.

Lemma edge_cell_transpose (rows cols : Z) (grayImage : list (list Z)) (i j : Z) :
  0 <= i < cols -> 0 <= j < rows ->
  edge_cell cols rows (transpose rows cols grayImage) i j
  = edge_cell rows cols grayImage j i.
Proof.
  intros Hi Hj. unfold edge_cell. cbv zeta.
  destruct (sobel_cell_transpose rows cols grayImage i j Hi Hj) as [-> ->].
  f_equal. f_equal. ring.
Qed.

(** X6. An 8-bit gray image and its negative (every level v replaced
    by 255 - v) have the same edge map under the constructor's scale and
    delta, in both classes: both gradients change sign and the magnitude
    squares them. *)
Theorem negative_image_same_edges
    (self : AltSobel.t) (pself : OmpSobel.t) (sched : Schedule)
    (grayImage : list (list Z)) :
  AltSobel.scale self = Double.of_int 1 -> AltSobel.delta self = Double.of_int 0 ->
  OmpSobel.scale pself = Double.of_int 1 -> OmpSobel.delta pself = Double.of_int 0 ->
  valid_schedule sched ->
  is_u8_image grayImage ->
  let inverted := negative (AltSobel.height self) (AltSobel.width self) grayImage in
  let pinverted := negative (OmpSobel.height pself) (OmpSobel.width pself) grayImage in
  AltSobel.combineGradients self
    (AltSobel.computeGradientX self inverted) (AltSobel.computeGradientY self inverted)
  = AltSobel.combineGradients self
      (AltSobel.computeGradientX self grayImage) (AltSobel.computeGradientY self grayImage)
  /\ OmpSobel.combineGradients sched pself
       (OmpSobel.computeGradientX sched pself pinverted)
       (OmpSobel.computeGradientY sched pself pinverted)
     = OmpSobel.combineGradients sched pself
         (OmpSobel.computeGradientX sched pself grayImage)
         (OmpSobel.computeGradientY sched pself grayImage).
Proof.
  intros Hs Hd Hps Hpd Hsched Hu8 inverted pinverted.
  rewrite !alt_edges_cells, !omp_edges_cells
    by (assumption || apply negative_u8, Hu8).
  split; apply mat_tabulate_ext; intros i j _ _; apply edge_cell_negative.
Qed.

Lemma negative_image_same_edges_witness :
  let self := AltSobel.mk 3 (Double.of_int 1) (Double.of_int 0) 3 3 in
  let pself := OmpSobel.mk 3 (Double.of_int 1) (Double.of_int 0) 3 3 in
  let grayImage := [[10; 20; 30]; [40; 50; 60]; [70; 80; 200]] in
  let inverted := negative 3 3 grayImage in
  AltSobel.combineGradients self
    (AltSobel.computeGradientX self inverted) (AltSobel.computeGradientY self inverted)
  = AltSobel.combineGradients self
      (AltSobel.computeGradientX self grayImage) (AltSobel.computeGradientY self grayImage)
  /\ OmpSobel.combineGradients backwards pself
       (OmpSobel.computeGradientX backwards pself inverted)
       (OmpSobel.computeGradientY backwards pself inverted)
     = OmpSobel.combineGradients backwards pself
         (OmpSobel.computeGradientX backwards pself grayImage)
         (OmpSobel.computeGradientY backwards pself grayImage).
Proof.
  apply (negative_image_same_edges
           (AltSobel.mk 3 (Double.of_int 1) (Double.of_int 0) 3 3)
           (OmpSobel.mk 3 (Double.of_int 1) (Double.of_int 0) 3 3)
           backwards [[10; 20; 30]; [40; 50; 60]; [70; 80; 200]]);
    try reflexivity.
  - apply backwards_valid.
  - repeat constructor; lia.
Defined.

(** X7. The edge map of a mirrored 8-bit gray image is the mirrored
    edge map of the image, under the constructor's scale and delta, in
    both classes. *)
Theorem mirrored_image_mirrored_edges
    (self : AltSobel.t) (pself : OmpSobel.t) (sched : Schedule)
    (grayImage : list (list Z)) :
  AltSobel.scale self = Double.of_int 1 -> AltSobel.delta self = Double.of_int 0 ->
  OmpSobel.scale pself = Double.of_int 1 -> OmpSobel.delta pself = Double.of_int 0 ->
  valid_schedule sched ->
  is_u8_image grayImage ->
  let flipped := mirror (AltSobel.height self) (AltSobel.width self) grayImage in
  let pflipped := mirror (OmpSobel.height pself) (OmpSobel.width pself) grayImage in
  AltSobel.combineGradients self
    (AltSobel.computeGradientX self flipped) (AltSobel.computeGradientY self flipped)
  = mirror (AltSobel.height self) (AltSobel.width self)
      (AltSobel.combineGradients self
         (AltSobel.computeGradientX self grayImage)
         (AltSobel.computeGradientY self grayImage))
  /\ OmpSobel.combineGradients sched pself
       (OmpSobel.computeGradientX sched pself pflipped)
       (OmpSobel.computeGradientY sched pself pflipped)
     = mirror (OmpSobel.height pself) (OmpSobel.width pself)
         (OmpSobel.combineGradients sched pself
            (OmpSobel.computeGradientX sched pself grayImage)
            (OmpSobel.computeGradientY sched pself grayImage)).
Proof.
  intros Hs Hd Hps Hpd Hsched Hu8 flipped pflipped. subst flipped pflipped.
  rewrite !alt_edges_cells, !omp_edges_cells
    by (assumption || apply mirror_u8, Hu8).
  unfold mirror at 2 4.
  split; apply mat_tabulate_ext; intros i j Hi Hj;
    rewrite mat_at_tabulate by lia; apply edge_cell_mirror; assumption.
Qed.

Lemma mirrored_image_mirrored_edges_witness :
  let self := AltSobel.mk 3 (Double.of_int 1) (Double.of_int 0) 3 4 in
  let pself := OmpSobel.mk 3 (Double.of_int 1) (Double.of_int 0) 3 4 in
  let grayImage := [[10; 20; 30; 0]; [40; 50; 60; 0]; [70; 80; 200; 0]] in
  let flipped := mirror 3 4 grayImage in
  AltSobel.combineGradients self
    (AltSobel.computeGradientX self flipped) (AltSobel.computeGradientY self flipped)
  = mirror 3 4
      (AltSobel.combineGradients self
         (AltSobel.computeGradientX self grayImage)
         (AltSobel.computeGradientY self grayImage))
  /\ OmpSobel.combineGradients backwards pself
       (OmpSobel.computeGradientX backwards pself flipped)
       (OmpSobel.computeGradientY backwards pself flipped)
     = mirror 3 4
         (OmpSobel.combineGradients backwards pself
            (OmpSobel.computeGradientX backwards pself grayImage)
            (OmpSobel.computeGradientY backwards pself grayImage)).
Proof.
  apply (mirrored_image_mirrored_edges
           (AltSobel.mk 3 (Double.of_int 1) (Double.of_int 0) 3 4)
           (OmpSobel.mk 3 (Double.of_int 1) (Double.of_int 0) 3 4)
           backwards [[10; 20; 30; 0]; [40; 50; 60; 0]; [70; 80; 200; 0]]);
    try reflexivity.
  - apply backwards_valid.
  - repeat constructor; lia.
Defined.

(** X8. Exchanging rows and columns of an 8-bit gray image exchanges
    rows and columns of its edge map (constructor's scale and delta): the
    horizontal gradient of the transposed image is the vertical gradient of
    the image, and conversely. *)
Theorem transposed_image_transposed_edges
    (self self' : AltSobel.t) (grayImage : list (list Z)) :
  AltSobel.scale self = Double.of_int 1 -> AltSobel.delta self = Double.of_int 0 ->
  AltSobel.scale self' = Double.of_int 1 -> AltSobel.delta self' = Double.of_int 0 ->
  AltSobel.height self' = AltSobel.width self ->
  AltSobel.width self' = AltSobel.height self ->
  is_u8_image grayImage ->
  let turned := transpose (AltSobel.height self) (AltSobel.width self) grayImage in
  AltSobel.combineGradients self'
    (AltSobel.computeGradientX self' turned) (AltSobel.computeGradientY self' turned)
  = transpose (AltSobel.height self) (AltSobel.width self)
      (AltSobel.combineGradients self
         (AltSobel.computeGradientX self grayImage)
         (AltSobel.computeGradientY self grayImage)).
Proof.
  intros Hs Hd Hs' Hd' Hh Hw Hu8 turned. subst turned.
  rewrite !alt_edges_cells by (assumption || apply transpose_u8, Hu8).
  rewrite Hh, Hw. unfold transpose at 2.
  apply mat_tabulate_ext; intros i j Hi Hj.
  rewrite mat_at_tabulate by lia. apply edge_cell_transpose; assumption.
Qed.

Lemma transposed_image_transposed_edges_witness :
  let self := AltSobel.mk 3 (Double.of_int 1) (Double.of_int 0) 3 4 in
  let self' := AltSobel.mk 3 (Double.of_int 1) (Double.of_int 0) 4 3 in
  let grayImage := [[10; 20; 30; 0]; [40; 50; 60; 0]; [70; 80; 200; 0]] in
  let turned := transpose 3 4 grayImage in
  AltSobel.combineGradients self'
    (AltSobel.computeGradientX self' turned) (AltSobel.computeGradientY self' turned)
  = transpose 3 4
      (AltSobel.combineGradients self
         (AltSobel.computeGradientX self grayImage)
         (AltSobel.computeGradientY self grayImage)).
Proof.
  apply (transposed_image_transposed_edges
           (AltSobel.mk 3 (Double.of_int 1) (Double.of_int 0) 3 4)
           (AltSobel.mk 3 (Double.of_int 1) (Double.of_int 0) 4 3)
           [[10; 20; 30; 0]; [40; 50; 60; 0]; [70; 80; 200; 0]]);
    try reflexivity.
  repeat constructor; lia.
Defined.

(** X9. On an 8-bit gray image whose columns are constant (level s in
    column s), at every interior pixel of column j the horizontal gradient
    is 4 * (level (j+1) - level (j-1)), the vertical gradient is 0, and the
    edge value is min(255, 4 * |level (j+1) - level (j-1)|): a step of 64
    gray levels or more saturates the output. *)
Theorem vertical_stripes_response
    (self : AltSobel.t) (grayImage : list (list Z)) (level : Z -> Z) (i j : Z) :
  AltSobel.scale self = Double.of_int 1 -> AltSobel.delta self = Double.of_int 0 ->
  is_u8_image grayImage ->
  (forall r s, 0 <= r < AltSobel.height self -> 0 <= s < AltSobel.width self ->
               mat_at grayImage r s = level s) ->
  1 <= i < AltSobel.height self - 1 -> 1 <= j < AltSobel.width self - 1 ->
  let gradX := AltSobel.computeGradientX self grayImage in
  let gradY := AltSobel.computeGradientY self grayImage in
  mat_at gradX i j = 4 * (level (j + 1) - level (j - 1))
  /\ mat_at gradY i j = 0
  /\ mat_at (AltSobel.combineGradients self gradX gradY) i j
     = Z.min 255 (4 * Z.abs (level (j + 1) - level (j - 1))).
Proof.
  intros Hs Hd Hu8 Hlevel Hi Hj gradX gradY.
  destruct (sobel_sum_bound grayImage i j Hu8) as [HbX HbY].
  assert (sobel_cell KernelUtil.sobelX (AltSobel.height self) (AltSobel.width self)
            grayImage i j = 4 * (level (j + 1) - level (j - 1))) as HX.
  { unfold sobel_cell.
    destruct (decide (1 <= i < AltSobel.height self - 1
                      /\ 1 <= j < AltSobel.width self - 1)); [|lia].
    rewrite dot_product_sobelX, !Hlevel by lia. ring. }
  assert (sobel_cell KernelUtil.sobelY (AltSobel.height self) (AltSobel.width self)
            grayImage i j = 0) as HY.
  { unfold sobel_cell.
    destruct (decide (1 <= i < AltSobel.height self - 1
                      /\ 1 <= j < AltSobel.width self - 1)); [|lia].
    rewrite dot_product_sobelY, !Hlevel by lia. ring. }
  subst gradX gradY.
  rewrite alt_edges_cells by assumption.
  unfold AltSobel.computeGradientX, AltSobel.computeGradientY.
  rewrite !alt_computeGradient_cells, !mat_at_tabulate, Hs, Hd by lia.
  rewrite !gradient_cell_sobel by (reflexivity || assumption).
  unfold edge_cell. cbv zeta. rewrite HX, HY.
  repeat split.
  rewrite Z.add_0_r, <- Z.abs_square, Z.sqrt_square by apply Z.abs_nonneg.
  rewrite Z.abs_mul. reflexivity.
Qed.

Lemma vertical_stripes_response_witness :
  let self := AltSobel.mk 3 (Double.of_int 1) (Double.of_int 0) 3 3 in
  let grayImage := [[10; 20; 40]; [10; 20; 40]; [10; 20; 40]] in
  let level := fun s => 10 * 2 ^ s in
  let gradX := AltSobel.computeGradientX self grayImage in
  let gradY := AltSobel.computeGradientY self grayImage in
  mat_at gradX 1 1 = 4 * (level (1 + 1) - level (1 - 1))
  /\ mat_at gradY 1 1 = 0
  /\ mat_at (AltSobel.combineGradients self gradX gradY) 1 1
     = Z.min 255 (4 * Z.abs (level (1 + 1) - level (1 - 1))).
Proof.
  apply (vertical_stripes_response
           (AltSobel.mk 3 (Double.of_int 1) (Double.of_int 0) 3 3)
           [[10; 20; 40]; [10; 20; 40]; [10; 20; 40]]
           (fun s => 10 * 2 ^ s) 1 1); try reflexivity; try (cbn; lia).
  - repeat constructor; lia.
  - cbn [AltSobel.height AltSobel.width]. intros r s Hr Hs.
    assert (r = 0 \/ r = 1 \/ r = 2) as [-> | [-> | ->]] by lia;
      assert (s = 0 \/ s = 1 \/ s = 2) as [-> | [-> | ->]] by lia; reflexivity.
Defined.

(** X10. Under the constructor's scale and delta both gradient fields
    of an 8-bit gray image lie between -1020 and 1020 at every pixel, so
    the sum of squares that [combineGradients] computes in [int] never
    overflows. *)
Theorem sobel_gradient_range
    (self : AltSobel.t) (grayImage : list (list Z)) (i j : Z) :
  AltSobel.scale self = Double.of_int 1 -> AltSobel.delta self = Double.of_int 0 ->
  is_u8_image grayImage ->
  0 <= i < AltSobel.height self -> 0 <= j < AltSobel.width self ->
  let gx := mat_at (AltSobel.computeGradientX self grayImage) i j in
  let gy := mat_at (AltSobel.computeGradientY self grayImage) i j in
  -1020 <= gx <= 1020 /\ -1020 <= gy <= 1020
  /\ CInt.int_range (gx * gx + gy * gy).
Proof.
  intros Hs Hd Hu8 Hi Hj gx gy. subst gx gy.
  destruct (sobel_sum_bound grayImage i j Hu8) as [HbX HbY].
  unfold AltSobel.computeGradientX, AltSobel.computeGradientY.
  rewrite !alt_computeGradient_cells, !mat_at_tabulate, Hs, Hd by lia.
  rewrite !gradient_cell_sobel by (reflexivity || assumption).
  destruct (sobel_cell_bound (AltSobel.height self) (AltSobel.width self)
              grayImage i j Hu8) as [HX HY].
  pose proof (square_bound _ HX). pose proof (square_bound _ HY).
  unfold CInt.int_range. lia.
Qed.

Lemma sobel_gradient_range_witness :
  let self := AltSobel.mk 3 (Double.of_int 1) (Double.of_int 0) 3 3 in
  let grayImage := [[0; 0; 255]; [0; 0; 255]; [0; 0; 255]] in
  let gx := mat_at (AltSobel.computeGradientX self grayImage) 1 1 in
  let gy := mat_at (AltSobel.computeGradientY self grayImage) 1 1 in
  -1020 <= gx <= 1020 /\ -1020 <= gy <= 1020
  /\ CInt.int_range (gx * gx + gy * gy).
Proof.
  apply (sobel_gradient_range
           (AltSobel.mk 3 (Double.of_int 1) (Double.of_int 0) 3 3)
           [[0; 0; 255]; [0; 0; 255]; [0; 0; 255]] 1 1);
    try reflexivity; try (cbn; lia).
  repeat constructor; lia.
Defined.

(** ** Gray pixels *)

Lemma gray_levels_checked :
  forallb gray_level_kept_or_darkened (seqZ 0 256) = true.
Proof. vm_compute. reflexivity. Qed.

(** X11. A gray pixel (v, v, v) with v between 0 and 255 gets the gray
    level v or v - 1: the three binary64 weights do not add up to exactly
    1, and the sum is truncated. *)
Theorem gray_pixel_luminance (v : Z) :
  0 <= v <= 255 -> luminance v v v = v \/ luminance v v v = v - 1.
Proof.
  intros Hv.
  pose proof (proj1 (forallb_forall _ _) gray_levels_checked v) as Hchk.
  assert (In v (seqZ 0 256)) as Hin.
  { apply list_elem_of_In, elem_of_seqZ. lia. }
  specialize (Hchk Hin). unfold gray_level_kept_or_darkened in Hchk.
  apply orb_prop in Hchk.
  destruct Hchk as [H | H]; apply Z.eqb_eq in H; [left | right]; exact H.
Qed.

Lemma gray_pixel_luminance_witness :
  luminance 128 128 128 = 128 \/ luminance 128 128 128 = 128 - 1.
Proof. apply (gray_pixel_luminance 128). lia. Defined.

Lemma saturated_magnitude (gx gy : Z) :
  255 <= Z.abs gx \/ 255 <= Z.abs gy -> Z.min 255 (Z.sqrt (gx * gx + gy * gy)) = 255.
Proof.
  intros Hbig.
  assert (255 * 255 <= gx * gx + gy * gy) as Hsq.
  { pose proof (Z.square_nonneg (Z.abs gx)) as Hx.
    pose proof (Z.square_nonneg (Z.abs gy)) as Hy.
    rewrite <- (Z.abs_square gx), <- (Z.abs_square gy).
    destruct Hbig as [Hb | Hb];
      pose proof (Z.mul_le_mono_nonneg 255 _ 255 _ ltac:(lia) Hb ltac:(lia) Hb); lia. }
  apply Z.sqrt_le_mono in Hsq.
  rewrite Z.sqrt_square in Hsq by lia. lia.
Qed.

(** X12. The edge map of a black-and-white gray image (every sample 0
    or 255) is black-and-white too, under the constructor's scale and
    delta: every cell is 0 or 255. *)
Theorem black_and_white_edges
    (self : AltSobel.t) (grayImage : list (list Z)) (i j : Z) :
  AltSobel.scale self = Double.of_int 1 -> AltSobel.delta self = Double.of_int 0 ->
  is_u8_image grayImage ->
  (forall r s, 0 <= r < AltSobel.height self -> 0 <= s < AltSobel.width self ->
               mat_at grayImage r s = 0 \/ mat_at grayImage r s = 255) ->
  0 <= i < AltSobel.height self -> 0 <= j < AltSobel.width self ->
  let edges := AltSobel.combineGradients self
                 (AltSobel.computeGradientX self grayImage)
                 (AltSobel.computeGradientY self grayImage) in
  mat_at edges i j = 0 \/ mat_at edges i j = 255.
Proof.
  intros Hs Hd Hu8 Hbw Hi Hj edges. subst edges.
  rewrite alt_edges_cells, mat_at_tabulate by assumption.
  unfold edge_cell, sobel_cell. cbv zeta.
  destruct (decide (1 <= i < AltSobel.height self - 1
                    /\ 1 <= j < AltSobel.width self - 1)) as [[Hi' Hj']|];
    [|left; reflexivity].
  rewrite dot_product_sobelX, dot_product_sobelY.
  pose proof (Hbw (i - 1) (j - 1) ltac:(lia) ltac:(lia)) as H1.
  pose proof (Hbw (i - 1) j ltac:(lia) ltac:(lia)) as H2.
  pose proof (Hbw (i - 1) (j + 1) ltac:(lia) ltac:(lia)) as H3.
  pose proof (Hbw i (j - 1) ltac:(lia) ltac:(lia)) as H4.
  pose proof (Hbw i (j + 1) ltac:(lia) ltac:(lia)) as H5.
  pose proof (Hbw (i + 1) (j - 1) ltac:(lia) ltac:(lia)) as H6.
  pose proof (Hbw (i + 1) j ltac:(lia) ltac:(lia)) as H7.
  pose proof (Hbw (i + 1) (j + 1) ltac:(lia) ltac:(lia)) as H8.
  set (a := mat_at grayImage (i - 1) (j - 1)) in *.
  set (b := mat_at grayImage (i - 1) j) in *.
  set (c := mat_at grayImage (i - 1) (j + 1)) in *.
  set (d := mat_at grayImage i (j - 1)) in *.
  set (e := mat_at grayImage i (j + 1)) in *.
  set (f := mat_at grayImage (i + 1) (j - 1)) in *.
  set (g := mat_at grayImage (i + 1) j) in *.
  set (h := mat_at grayImage (i + 1) (j + 1)) in *.
  set (gx := c - a + 2 * (e - d) + (h - f)).
  set (gy := f - a + 2 * (g - b) + (h - c)).
  assert (gx = 0 \/ 255 <= Z.abs gx) as [Hx | Hx] by (subst gx; lia);
    assert (gy = 0 \/ 255 <= Z.abs gy) as [Hy | Hy] by (subst gy; lia).
  - left. rewrite Hx, Hy. reflexivity.
  - right. apply saturated_magnitude. right. exact Hy.
  - right. apply saturated_magnitude. left. exact Hx.
  - right. apply saturated_magnitude. left. exact Hx.
Qed.

Lemma black_and_white_edges_witness :
  let self := AltSobel.mk 3 (Double.of_int 1) (Double.of_int 0) 3 3 in
  let edges := AltSobel.combineGradients self
                 (AltSobel.computeGradientX self [[0; 255; 0]; [255; 255; 0]; [0; 0; 255]])
                 (AltSobel.computeGradientY self [[0; 255; 0]; [255; 255; 0]; [0; 0; 255]]) in
  mat_at edges 1 1 = 0 \/ mat_at edges 1 1 = 255.
Proof.
  apply (black_and_white_edges
           (AltSobel.mk 3 (Double.of_int 1) (Double.of_int 0) 3 3)
           [[0; 255; 0]; [255; 255; 0]; [0; 0; 255]] 1 1);
    try reflexivity; try (cbn; lia).
  - repeat constructor; lia.
  - cbn [AltSobel.height AltSobel.width]. intros r s Hr Hs.
    assert (r = 0 \/ r = 1 \/ r = 2) as [-> | [-> | ->]] by lia;
      assert (s = 0 \/ s = 1 \/ s = 2) as [-> | [-> | ->]] by lia;
      (left; reflexivity) || (right; reflexivity).
Defined.

(** ** The OpenMP pipeline against the sequential one *)

(** X13. [OmpSobel::getEdges] returns the same edge map, leaves the
    same object and writes the same file under any two schedules of its
    OpenMP loops. *)
Theorem getEdges_schedule_independent
    (sched1 sched2 : Schedule) (self : OmpSobel.t)
    (inputPath outputName : string) (w : ImageUtils.World) :
  valid_schedule sched1 -> valid_schedule sched2 ->
  OmpSobel.getEdges sched1 self inputPath outputName w
  = OmpSobel.getEdges sched2 self inputPath outputName w.
Proof.
  intros H1 H2. unfold OmpSobel.getEdges.
  destruct (ImageUtils.getImage inputPath w) as [e|image]; [reflexivity|].
  cbv zeta. rewrite (omp_stages_any_schedule sched1 sched2) by assumption.
  reflexivity.
Qed.

Lemma getEdges_schedule_independent_witness :
  OmpSobel.getEdges sequential (OmpSobel.new 3) "red.png" "edges.png"
    (one_file "red.png" red_column)
  = OmpSobel.getEdges backwards (OmpSobel.new 3) "red.png" "edges.png"
      (one_file "red.png" red_column).
Proof.
  apply (getEdges_schedule_independent sequential backwards).
  - apply sequential_valid.
  - apply backwards_valid.
Defined.

(** X14. On every image and under every schedule, the OpenMP pipeline
    computes what the sequential pipeline computes on the image with the
    red and the blue sample of each pixel exchanged. *)
Theorem omp_is_sequential_on_swapped_channels
    (sched : Schedule) (p : OmpSobel.t) (image : list (list (list Z))) :
  valid_schedule sched ->
  OmpSobel.stages sched p image
  = AltSobel.stages (as_sequential p)
      (swap_red_blue (OmpSobel.height p) (OmpSobel.width p) image).
Proof.
  intros Hsched. unfold OmpSobel.stages, AltSobel.stages.
  rewrite omp_equals_sequential_after_grayscale by assumption.
  assert (OmpSobel.convertToGrayscale sched p (OmpSobel.convertToRGB sched p image)
          = AltSobel.convertToGrayscale (as_sequential p)
              (AltSobel.convertToRGB (as_sequential p)
                 (swap_red_blue (OmpSobel.height p) (OmpSobel.width p) image)))
    as ->; [|reflexivity].
  rewrite omp_convertToGrayscale_cells, omp_convertToRGB_cells by assumption.
  rewrite alt_convertToGrayscale_cells, alt_convertToRGB_cells.
  cbn [as_sequential AltSobel.height AltSobel.width].
  apply mat_tabulate_ext. intros i j Hi Hj. cbv zeta.
  unfold swap_red_blue. rewrite !mat_at_tabulate by assumption. reflexivity.
Qed.

Lemma omp_is_sequential_on_swapped_channels_witness :
  let p := OmpSobel.mk 3 (Double.of_int 1) (Double.of_int 0) 3 3 in
  OmpSobel.stages backwards p red_column
  = AltSobel.stages (as_sequential p) (swap_red_blue 3 3 red_column).
Proof.
  apply (omp_is_sequential_on_swapped_channels backwards
           (OmpSobel.mk 3 (Double.of_int 1) (Double.of_int 0) 3 3) red_column).
  apply backwards_valid.
Defined.

(** X15. On an input whose red and blue samples coincide at every
    pixel (a gray picture, for instance), [getEdges] of the OpenMP class
    and of the sequential class return the same result and leave the same
    file system, for any kernel sizes and any schedule; on an unreadable
    input both throw the same exception. *)
Theorem getEdges_agree_when_red_is_blue
    (sched : Schedule) (kernelSize kernelSize' : Z)
    (inputPath outputName : string) (w : ImageUtils.World) :
  let image := ImageUtils.decode w inputPath in
  valid_schedule sched ->
  (forall i j, 0 <= i < mat_rows image -> 0 <= j < mat_cols image ->
               zlookup (mat_at image i j) 0 = zlookup (mat_at image i j) 2) ->
  fst (fst (OmpSobel.getEdges sched (OmpSobel.new kernelSize) inputPath outputName w))
  = fst (fst (AltSobel.getEdges (AltSobel.new kernelSize') inputPath outputName w))
  /\ snd (OmpSobel.getEdges sched (OmpSobel.new kernelSize) inputPath outputName w)
     = snd (AltSobel.getEdges (AltSobel.new kernelSize') inputPath outputName w).
Proof.
  intros image Hsched Hrb. unfold OmpSobel.getEdges, AltSobel.getEdges.
  unfold ImageUtils.getImage. fold image.
  destruct (mat_empty image); [split; reflexivity|].
  cbv zeta. cbn [OmpSobel.ksize OmpSobel.scale OmpSobel.delta OmpSobel.new
                 AltSobel.ksize AltSobel.scale AltSobel.delta AltSobel.new].
  rewrite (omp_equals_sequential_when_red_is_blue sched _ image Hsched)
    by exact Hrb.
  cbn [as_sequential OmpSobel.ksize OmpSobel.scale OmpSobel.delta
       OmpSobel.height OmpSobel.width fst snd].
  split; reflexivity.
Qed.

Lemma getEdges_agree_when_red_is_blue_witness :
  let w := one_file "gray.png"
             [ [[10; 20; 10]; [0; 0; 0]; [7; 7; 7]];
               [[200; 1; 200]; [30; 30; 30]; [0; 255; 0]];
               [[90; 80; 90]; [5; 6; 5]; [255; 255; 255]] ] in
  fst (fst (OmpSobel.getEdges backwards (OmpSobel.new 3) "gray.png" "edges.png" w))
  = fst (fst (AltSobel.getEdges (AltSobel.new 5) "gray.png" "edges.png" w))
  /\ snd (OmpSobel.getEdges backwards (OmpSobel.new 3) "gray.png" "edges.png" w)
     = snd (AltSobel.getEdges (AltSobel.new 5) "gray.png" "edges.png" w).
Proof.
  apply (getEdges_agree_when_red_is_blue backwards 3 5 "gray.png" "edges.png"
           (one_file "gray.png"
              [ [[10; 20; 10]; [0; 0; 0]; [7; 7; 7]];
                [[200; 1; 200]; [30; 30; 30]; [0; 255; 0]];
                [[90; 80; 90]; [5; 6; 5]; [255; 255; 255]] ])).
  - apply backwards_valid.
  - intros i j Hi Hj. change (0 <= i < 3) in Hi. change (0 <= j < 3) in Hj.
    assert (i = 0 \/ i = 1 \/ i = 2) as [-> | [-> | ->]] by lia;
      assert (j = 0 \/ j = 1 \/ j = 2) as [-> | [-> | ->]] by lia;
      reflexivity.
Defined.

(** ** main *)

Section MainFacts.
Variables ocvSobel ocvPrewitt ocvRobertsCross :
  string -> string -> ImageUtils.World
  -> (exception + list (list Z)) * ImageUtils.World.
Variable sched : Schedule.
Variable elapsed : string.


Lemma dispatch_unknown (operatorType inputPath outputPath : string) (w : ImageUtils.World) :
  operatorType ∉ known_operators ->
  Main.dispatch ocvSobel ocvPrewitt ocvRobertsCross sched operatorType inputPath outputPath w = None.
Proof.
  intros Hnot. unfold Main.dispatch.
  repeat match goal with
  | |- context [String.eqb operatorType ?name] =>
      destruct (String.eqb_spec operatorType name) as [->|_];
      [exfalso; apply Hnot; apply list_elem_of_In; simpl; auto 10|]
  end.
  reflexivity.
Qed.

Lemma dispatch_alt (inputPath outputPath : string) (w : ImageUtils.World) :
  Main.dispatch ocvSobel ocvPrewitt ocvRobertsCross sched "alternative%20sobel" inputPath outputPath w
  = Some (fst (fst (AltSobel.getEdges (AltSobel.new 3) inputPath outputPath w)),
          snd (AltSobel.getEdges (AltSobel.new 3) inputPath outputPath w)).
Proof.
  unfold Main.dispatch.
  change (String.eqb "alternative%20sobel" "opencv%20sobel") with false.
  change (String.eqb "alternative%20sobel" "alternative%20sobel") with true.
  cbv iota.
  destruct (AltSobel.getEdges (AltSobel.new 3) inputPath outputPath w) as [[r self] w'].
  reflexivity.
Qed.

Lemma dispatch_omp (inputPath outputPath : string) (w : ImageUtils.World) :
  Main.dispatch ocvSobel ocvPrewitt ocvRobertsCross sched "openmp%20sobel" inputPath outputPath w
  = Some (fst (fst (OmpSobel.getEdges sched (OmpSobel.new 3) inputPath outputPath w)),
          snd (OmpSobel.getEdges sched (OmpSobel.new 3) inputPath outputPath w)).
Proof.
  unfold Main.dispatch.
  change (String.eqb "openmp%20sobel" "opencv%20sobel") with false.
  change (String.eqb "openmp%20sobel" "alternative%20sobel") with false.
  change (String.eqb "openmp%20sobel" "openmp%20sobel") with true.
  cbv iota.
  destruct (OmpSobel.getEdges sched (OmpSobel.new 3) inputPath outputPath w) as [[r self] w'].
  reflexivity.
Qed.


(** X17. With fewer than three arguments [main] exits with status 1,
    prints the usage line on standard error and nothing else.  With three
    or more arguments and an operator name that is none of the five known
    ones, it exits with status 1 and prints [Unknown operator: <name>] on
    standard error and nothing else.  In both cases no operator runs: the
    file system is untouched. *)
Theorem main_rejects_bad_command_line (argv : list string) (w : ImageUtils.World) :
  ((length argv < 4)%nat ->
   Main.main ocvSobel ocvPrewitt ocvRobertsCross sched elapsed argv w
   = (1,
      Main.mkConsole [] ["Usage: operators <operator> <input_path> <output_path>"%string],
      w))
  /\ ((4 <= length argv)%nat ->
      nth 1 argv EmptyString
        ∉ [ "opencv%20sobel"; "alternative%20sobel"; "openmp%20sobel"; "prewitt";
            "roberts%20cross" ]%string ->
      Main.main ocvSobel ocvPrewitt ocvRobertsCross sched elapsed argv w
      = (1,
         Main.mkConsole []
           [String.append "Unknown operator: " (nth 1 argv EmptyString)],
         w)).
Proof.
  unfold Main.main. split.
  - intros Hshort.
    destruct (decide (Z.of_nat (length argv) < 4)); [reflexivity | lia].
  - intros Hlong Hunknown.
    destruct (decide (Z.of_nat (length argv) < 4)); [lia|].
    cbv zeta. rewrite dispatch_unknown by exact Hunknown. reflexivity.
Qed.

(** X18. [main] with the sequential or with the OpenMP Sobel operator
    and an input path that holds no decodable image exits with status 1,
    prints [Error: Could not read the image: <path>] on standard error,
    nothing on standard output, and writes no file; further arguments are
    ignored. *)
Theorem main_sobel_unreadable_input
    (program operatorType inputPath outputPath : string) (rest : list string)
    (w : ImageUtils.World) :
  operatorType = "alternative%20sobel"%string \/ operatorType = "openmp%20sobel"%string ->
  mat_empty (ImageUtils.decode w inputPath) = true ->
  Main.main ocvSobel ocvPrewitt ocvRobertsCross sched elapsed
    (program :: operatorType :: inputPath :: outputPath :: rest) w
  = (1,
     Main.mkConsole []
       [String.append "Error: " (String.append "Could not read the image: " inputPath)],
     w).
Proof.
  intros Hop Hempty. unfold Main.main.
  destruct (decide (Z.of_nat (length (program :: operatorType :: inputPath
                                        :: outputPath :: rest)) < 4)) as [Hargc|_];
    [cbn [length] in Hargc; lia|].
  cbv zeta. cbn [nth].
  destruct Hop as [-> | ->].
  - rewrite dispatch_alt. unfold AltSobel.getEdges, ImageUtils.getImage.
    rewrite Hempty. reflexivity.
  - rewrite dispatch_omp. unfold OmpSobel.getEdges, ImageUtils.getImage.
    rewrite Hempty. reflexivity.
Qed.

(** X19. [main] with the sequential or with the OpenMP Sobel operator
    and a decodable input exits with status 0, prints the timing and the
    success line, and hands exactly one image to [imwrite], under the
    output path: a well-formed edge map of the size of the input. *)
Theorem main_sobel_writes_edge_map
    (program operatorType inputPath outputPath : string) (rest : list string)
    (w : ImageUtils.World) :
  let image := ImageUtils.decode w inputPath in
  operatorType = "alternative%20sobel"%string \/ operatorType = "openmp%20sobel"%string ->
  mat_empty image = false ->
  valid_schedule sched ->
  exists edges,
    Main.main ocvSobel ocvPrewitt ocvRobertsCross sched elapsed
      (program :: operatorType :: inputPath :: outputPath :: rest) w
    = (0,
       Main.mkConsole [Main.time_taken elapsed; Main.completed] [],
       ImageUtils.mkWorld (ImageUtils.decode w)
         (ImageUtils.written w ++ [(outputPath, edges)]))
    /\ edge_map_of image edges.
Proof.
  intros image Hop Hne Hsched. unfold Main.main.
  destruct (decide (Z.of_nat (length (program :: operatorType :: inputPath
                                        :: outputPath :: rest)) < 4)) as [Hargc|_];
    [cbn [length] in Hargc; lia|].
  cbv zeta. cbn [nth].
  destruct Hop as [-> | ->].
  - rewrite dispatch_alt. unfold AltSobel.getEdges, ImageUtils.getImage.
    fold image. rewrite Hne. cbn [fst snd].
    destruct (alt_stages_cells
                (AltSobel.mk (AltSobel.ksize (AltSobel.new 3))
                   (AltSobel.scale (AltSobel.new 3)) (AltSobel.delta (AltSobel.new 3))
                   (mat_rows image) (mat_cols image)) image)
      as (f & -> & Hf).
    eexists. split; [reflexivity|].
    apply tabulate_edge_map; assumption.
  - rewrite dispatch_omp. unfold OmpSobel.getEdges, ImageUtils.getImage.
    fold image. rewrite Hne. cbn [fst snd].
    destruct (omp_stages_cells sched
                (OmpSobel.mk (OmpSobel.ksize (OmpSobel.new 3))
                   (OmpSobel.scale (OmpSobel.new 3)) (OmpSobel.delta (OmpSobel.new 3))
                   (mat_rows image) (mat_cols image)) image Hsched)
      as (f & -> & Hf).
    eexists. split; [reflexivity|].
    apply tabulate_edge_map; assumption.
Qed.

End MainFacts.

Lemma main_rejects_bad_command_line_witness :
  Main.main no_opencv no_opencv no_opencv sequential "0.0001"
    ["operators"; "prewitt"; "in.png"]%string (one_file "in.png" red_column)
  = (1,
     Main.mkConsole [] ["Usage: operators <operator> <input_path> <output_path>"%string],
     one_file "in.png" red_column)
  /\ Main.main no_opencv no_opencv no_opencv sequential "0.0001"
       ["operators"; "canny"; "in.png"; "out.png"]%string (one_file "in.png" red_column)
     = (1, Main.mkConsole [] ["Unknown operator: canny"%string],
        one_file "in.png" red_column).
Proof.
  split.
  - apply (proj1 (main_rejects_bad_command_line no_opencv no_opencv no_opencv sequential
                    "0.0001" ["operators"; "prewitt"; "in.png"]%string
                    (one_file "in.png" red_column))).
    cbn [length]. lia.
  - apply (proj2 (main_rejects_bad_command_line no_opencv no_opencv no_opencv sequential
                    "0.0001" ["operators"; "canny"; "in.png"; "out.png"]%string
                    (one_file "in.png" red_column))).
    + cbn [length]. lia.
    + cbn [nth]. intros Hin. apply list_elem_of_In in Hin. cbn in Hin.
      repeat destruct Hin as [Hin | Hin]; try discriminate Hin. exact Hin.
Defined.

Lemma main_sobel_unreadable_input_witness :
  Main.main no_opencv no_opencv no_opencv sequential "0.0001"
    ["operators"; "openmp%20sobel"; "missing.png"; "out.png"]%string
    (one_file "in.png" red_column)
  = (1,
     Main.mkConsole []
       [String.append "Error: " (String.append "Could not read the image: " "missing.png")],
     one_file "in.png" red_column).
Proof.
  apply (main_sobel_unreadable_input no_opencv no_opencv no_opencv sequential "0.0001"
           "operators" "openmp%20sobel" "missing.png" "out.png" []
           (one_file "in.png" red_column)).
  - right. reflexivity.
  - reflexivity.
Defined.

Lemma main_sobel_writes_edge_map_witness :
  exists edges,
    Main.main no_opencv no_opencv no_opencv backwards "0.0001"
      ["operators"; "alternative%20sobel"; "in.png"; "out.png"]%string
      (one_file "in.png" red_column)
    = (0,
       Main.mkConsole [Main.time_taken "0.0001"; Main.completed] [],
       ImageUtils.mkWorld (ImageUtils.decode (one_file "in.png" red_column))
         (ImageUtils.written (one_file "in.png" red_column) ++ [("out.png"%string, edges)]))
    /\ edge_map_of (ImageUtils.decode (one_file "in.png" red_column) "in.png") edges.
Proof.
  apply (main_sobel_writes_edge_map no_opencv no_opencv no_opencv backwards "0.0001"
           "operators" "alternative%20sobel" "in.png" "out.png" []
           (one_file "in.png" red_column)).
  - left. reflexivity.
  - reflexivity.
  - apply backwards_valid.
Defined.



